(** * ingress-nginx controller: configuration sizing and validate-then-apply

    A shallow embedding of the NGINX controller's reconciliation code
    ([OnUpdate], [renderTemplate], [testTemplate], [nginxHashBucketSize],
    [nextPowerOf2]).  The repository carries two generations of the
    controller: the older one, where [OnUpdate] does the sizing inline
    (module [Legacy]), and the newer one, where the sizing lives in
    [renderTemplate] (module [Current]).  The two integer helpers are
    textually identical in both and are modelled once. *)

From Stdlib Require Import ZArith Lia Bool List Ascii String.
From Stdlib Require Import Floats.SpecFloat.
From stdpp Require Import base option list gmap strings.

Local Open Scope Z_scope.

(** ** Go's [int]

    The code targets 64-bit platforms ("Assume 64 bit CPU"), where [int]
    is a 64-bit two's-complement integer.  An [int] is a [Z] in
    [[int_min, int_max]]; arithmetic wraps around, [>>] is the
    arithmetic shift and [|], [&], [^] act on the two's-complement
    representation, which is exactly what [Z.shiftr], [Z.lor], [Z.land]
    and [Z.lnot] do on [Z]. *)
Module GoInt.

Definition int_bits : Z := 64.
Definition int_min : Z := - 2 ^ 63.
Definition int_max : Z := 2 ^ 63 - 1.

Definition is_int (z : Z) : Prop := int_min <= z <= int_max.

(** Reduction of a mathematical result to the representable range. *)
Definition wrap (z : Z) : Z := (z + 2 ^ 63) mod 2 ^ 64 - 2 ^ 63.

Definition add (a b : Z) : Z := wrap (a + b).
Definition sub (a b : Z) : Z := wrap (a - b).
Definition mul (a b : Z) : Z := wrap (a * b).
(** Go's [/] truncates toward zero; the caller rules out a zero divisor. *)
Definition quo (a b : Z) : Z := wrap (Z.quot a b).
Definition shr (a k : Z) : Z := Z.shiftr a k.
Definition or (a b : Z) : Z := Z.lor a b.
Definition and (a b : Z) : Z := Z.land a b.
Definition not (a : Z) : Z := Z.lnot a.

End GoInt.

(** [len(s)] of a Go string: its number of bytes. *)
Definition len (s : string) : Z := Z.of_nat (String.length s).

(** ** The two integer helpers (identical in both generations) *)

(** [v |= v >> k] *)
Definition or_shift (k v : Z) : Z := GoInt.or v (GoInt.shr v k).

(** The five [v |= v >> k] statements of [nextPowerOf2]. *)
Definition smear (v : Z) : Z :=
  or_shift 16 (or_shift 8 (or_shift 4 (or_shift 2 (or_shift 1 v)))).

Definition nextPowerOf2 (v : Z) : Z :=
  let v := GoInt.sub v 1 in
  let v := or_shift 1 v in
  let v := or_shift 2 v in
  let v := or_shift 4 v in
  let v := or_shift 8 v in
  let v := or_shift 16 v in
  GoInt.add v 1.

Definition nginxHashBucketSize (longestString : Z) : Z :=
  let wordSize := 8 in
  let n := GoInt.add longestString 2 in
  let aligned :=
    GoInt.and (GoInt.sub (GoInt.add n wordSize) 1)
              (GoInt.not (GoInt.sub wordSize 1)) in
  let rawSize := GoInt.add (GoInt.add wordSize wordSize) aligned in
  nextPowerOf2 rawSize.

(** The sizing rule as the specification words it, over the
    mathematical integers. *)
Definition wordSize : Z := 8.
Definition align (n w : Z) : Z := ((n + w - 1) / w) * w.
Definition bucketSize_spec (longest : Z) : Z :=
  nextPowerOf2 (2 * wordSize + align (longest + 2) wordSize).

(** ** Strings: the three library calls the redirect pairing uses *)

(** [strings.HasPrefix(s, prefix)] *)
Definition HasPrefix (s prefix : string) : bool := String.prefix prefix s.

(** Membership of a byte in a cutset. *)
Fixpoint in_cutset (c : ascii) (cutset : string) : bool :=
  match cutset with
  | EmptyString => false
  | String d rest => if Ascii.eqb c d then true else in_cutset c rest
  end.

(** [strings.TrimLeft(s, cutset)] for an ASCII cutset: every leading byte
    that occurs in [cutset] is dropped (the cutset is a set of
    characters, not a prefix). *)
Fixpoint TrimLeft (s cutset : string) : string :=
  match s with
  | EmptyString => EmptyString
  | String c rest => if in_cutset c cutset then TrimLeft rest cutset else s
  end.

(** [strings.TrimPrefix(s, prefix)], what "removing exactly the leading
    prefix" means; the code does not call it. *)
Definition TrimPrefix (s prefix : string) : string :=
  if String.prefix prefix s
  then String.substring (String.length prefix)
                        (String.length s - String.length prefix) s
  else s.

(** ** Routing intent and backend configuration *)

(** Modelled from the spec: the declaration of [ingress.Server] is
    missing from the sources.  A Server entity has a hostname, alias
    hostnames and the "redirect bare-to-www" flag; the controller reads
    them as [Hostname], [Aliases] and [RedirectFromToWWW]. *)
Record Server := mkServer {
  Hostname : string;
  Aliases : list string;
  RedirectFromToWWW : bool
}.

(** Modelled from the spec: the declaration of the configuration struct
    is missing from the sources.  Of the global tuning options it holds,
    the controller adjusts the two hash table sizes and the two worker
    limits, all of them [int]. *)
Record Configuration := mkConfiguration {
  ServerNameHashBucketSize : Z;
  ServerNameHashMaxSize : Z;
  MaxWorkerOpenFiles : Z;
  MaxWorkerConnections : Z
}.

Definition set_ServerNameHashBucketSize (v : Z) (c : Configuration) :=
  mkConfiguration v (ServerNameHashMaxSize c) (MaxWorkerOpenFiles c)
                  (MaxWorkerConnections c).
Definition set_ServerNameHashMaxSize (v : Z) (c : Configuration) :=
  mkConfiguration (ServerNameHashBucketSize c) v (MaxWorkerOpenFiles c)
                  (MaxWorkerConnections c).
Definition set_MaxWorkerOpenFiles (v : Z) (c : Configuration) :=
  mkConfiguration (ServerNameHashBucketSize c) (ServerNameHashMaxSize c) v
                  (MaxWorkerConnections c).
Definition set_MaxWorkerConnections (v : Z) (c : Configuration) :=
  mkConfiguration (ServerNameHashBucketSize c) (ServerNameHashMaxSize c)
                  (MaxWorkerOpenFiles c) v.

(** ** [float64] conversions

    [int(float64(x))]: the conversion to [float64] rounds to nearest,
    ties to even (binary64: 53 bits of precision, [emax = 1024]); the
    conversion back discards the fraction.  A value outside [int] is
    implementation specific in Go; amd64 yields the smallest [int]. *)
Definition float64_of_int (z : Z) : spec_float :=
  binary_normalize 53 1024 z 0 false.

Definition int_of_float64 (f : spec_float) : Z :=
  match f with
  | S754_zero _ => 0
  | S754_finite s m e =>
      let mag := if 0 <=? e then Zpos m * 2 ^ e else Zpos m / 2 ^ (- e) in
      let v := if s then - mag else mag in
      if (GoInt.int_min <=? v) && (v <=? GoInt.int_max) then v
      else GoInt.int_min
  | _ => GoInt.int_min
  end.

(** ** The operating system as the controller sees it *)

Inductive error :=
  | ErrEmptyConfig
  | ErrOS (op path : string)
  | ErrNginxTest (out : string)
  | ErrReload (out : string)
  | ErrTemplate (msg : string).

Inductive event :=
  | EvCreateTemp (path : string)
  | EvWriteFile (path : string) (data : list Byte.byte)
  | EvRemove (path : string)
  | EvExec (argv : list string).

(** The files and the history of system calls, oldest first. *)
Record world := mkWorld {
  files : gmap string (list Byte.byte);
  trace : list event
}.

(** How a call of [WriteFile] ends: the data written; the open failing,
    with the file untouched; or the write failing after [n] bytes, the
    open having truncated the file. *)
Inductive write_outcome :=
  | WriteOk
  | WriteFailOpen
  | WriteFailAfter (n : nat).

(** What the environment decides; each answer may depend on the state. *)
Record OS := mkOS {
  TempDir : string;
  nextRandom : world -> string;
  createTempFails : world -> string -> bool;
  writeOutcome : world -> string -> list Byte.byte -> write_outcome;
  (** [nginx -t -c path]: [None] on exit status 0, else the output. *)
  nginxTest : world -> string -> option string;
  (** [nginx -s reload]: [None] on exit status 0, else the output. *)
  nginxReload : world -> option string;
  (** whether verbosity level 2 is enabled *)
  verbose : bool
}.

(** State passing, with Go's explicit error values as results. *)
Definition M (A : Type) : Type := world -> A * world.

#[global] Instance M_ret : MRet M := fun A (a : A) w => (a, w).
#[global] Instance M_bind : MBind M :=
  fun A B (k : A -> M B) (m : M A) w => let (a, w') := m w in k a w'.

Definition emit (e : event) : M unit :=
  fun w => (tt, mkWorld (files w) (trace w ++ [e])).

Definition ask {A} (f : world -> A) : M A := fun w => (f w, w).

Definition update_files (f : gmap string (list Byte.byte) ->
                             gmap string (list Byte.byte)) : M unit :=
  fun w => (tt, mkWorld (f (files w)) (trace w)).

(** [dir + "/" + pattern + random], the name [os.CreateTemp] picks. *)
Definition temp_name (dir pattern rnd : string) : string :=
  String.append dir (String.append "/" (String.append pattern rnd)).

Section SystemCalls.
Variable os : OS.

(** [os.CreateTemp(dir, pattern)] ([ioutil.TempFile]); an empty [dir]
    stands for the default temporary directory. *)
Definition CreateTemp (dir pattern : string) : M (string + error) :=
  let dir := if String.eqb dir "" then TempDir os else dir in
  rnd ← ask (nextRandom os);
  let p := temp_name dir pattern rnd in
  fails ← ask (fun w => createTempFails os w p);
  if (fails : bool) then mret (inr (ErrOS "open" p))
  else emit (EvCreateTemp p);;
       update_files (insert p []);;
       mret (inl p).

(** [os.WriteFile(name, data, perm)] ([ioutil.WriteFile]) *)
Definition WriteFile (name : string) (data : list Byte.byte)
  : M (option error) :=
  o ← ask (fun w => writeOutcome os w name data);
  emit (EvWriteFile name data);;
  match o with
  | WriteOk => update_files (insert name data);; mret None
  | WriteFailOpen => mret (Some (ErrOS "open" name))
  | WriteFailAfter n =>
      update_files (insert name (take n data));;
      mret (Some (ErrOS "write" name))
  end.

(** [os.ReadFile(name)] with the error dropped: no file reads as no
    bytes. *)
Definition ReadFile (name : string) : M (list Byte.byte) :=
  ask (fun w => default [] (files w !! name)).

(** [os.Remove(name)], its error ignored as the callers do. *)
Definition Remove (name : string) : M unit :=
  emit (EvRemove name);; update_files (delete name).

(** Running a command that leaves the files alone. *)
Definition Exec (argv : list string) : M unit := emit (EvExec argv).
End SystemCalls.

Definition cfgPath : string := "/etc/nginx/nginx.conf".

(** [bytes.Equal(a, b)] *)
Fixpoint bytes_Equal (a b : list Byte.byte) : bool :=
  match a, b with
  | [], [] => true
  | x :: a', y :: b' => Byte.eqb x y && bytes_Equal a' b'
  | _, _ => false
  end.

(** ** The older controller: [OnUpdate] sizes, validates and applies *)
Module Legacy.

(** What the loop over [ingressCfg.Servers] accumulates. *)
Record sizes := mkSizes {
  longestName : Z;
  serverNameBytes : Z;
  redirectServers : gmap string string
}.

(** The name a redirect is created for. *)
Definition redirectName (hostname : string) : string :=
  if HasPrefix hostname "www." then TrimLeft hostname "www."
  else String.append "www." hostname.

(** The inner loop: is there a server with that very hostname? *)
Definition found (servers : list Server) (n : string) : bool :=
  existsb (fun esrv => String.eqb (Hostname esrv) n) servers.

(** One iteration of the loop over the servers. *)
Definition OnUpdate_server (servers : list Server) (acc : sizes)
    (srv : Server) : sizes :=
  let longest :=
    if longestName acc <? len (Hostname srv) then len (Hostname srv)
    else longestName acc in
  let bytes := GoInt.add (serverNameBytes acc) (len (Hostname srv)) in
  let redirects :=
    if RedirectFromToWWW srv then
      let n := redirectName (Hostname srv) in
      match redirectServers acc !! n with
      | Some _ => redirectServers acc
      | None =>
          if found servers n then redirectServers acc
          else <[n := Hostname srv]> (redirectServers acc)
      end
    else redirectServers acc in
  mkSizes longest bytes redirects.

Definition OnUpdate_servers (servers : list Server) : sizes :=
  fold_left (OnUpdate_server servers) servers (mkSizes 0 0 ∅).

(** The two adjustments of the hash table sizes. *)
Definition OnUpdate_hashSizes (cfg : Configuration) (servers : list Server)
    : Configuration :=
  let s := OnUpdate_servers servers in
  let cfg :=
    if ServerNameHashBucketSize cfg =? 0
    then set_ServerNameHashBucketSize
           (nginxHashBucketSize (longestName s)) cfg
    else cfg in
  let serverNameHashMaxSize := nextPowerOf2 (serverNameBytes s) in
  if ServerNameHashMaxSize cfg <? serverNameHashMaxSize
  then set_ServerNameHashMaxSize serverNameHashMaxSize cfg
  else cfg.

(** The limit of open files per worker.  [fileMax] is what
    [sysctlFSFileMax()] returns and [atoi] the outcome of
    [strconv.Atoi(cfg.WorkerProcesses)], [None] for its error.  A zero
    divisor stops the program ([None]). *)
Definition OnUpdate_maxOpenFiles (fileMax : Z) (atoi : option Z) : option Z :=
  let wp := match atoi with Some n => n | None => 1 end in
  if wp =? 0 then None
  else
    let maxOpenFiles := GoInt.sub (GoInt.quo fileMax wp) 1024 in
    Some (if maxOpenFiles <? 1024 then 1024 else maxOpenFiles).

Section Apply.
Variable os : OS.
Variable binary : string.

Definition testTemplate (cfg : list Byte.byte) : M (option error) :=
  if (Z.of_nat (length cfg) =? 0)%Z then mret (Some ErrEmptyConfig)
  else
    r ← CreateTemp os "" "nginx-cfg";
    match r with
    | inr err => mret (Some err)
    | inl tmpfile =>
        err ← WriteFile os tmpfile cfg;
        match err with
        | Some e => mret (Some e)
        | None =>
            out ← ask (fun w => nginxTest os w tmpfile);
            Exec [binary; "-t"; "-c"; tmpfile]%string;;
            match out with
            | Some o => mret (Some (ErrNginxTest o))
            | None => Remove tmpfile;; mret None
            end
        end
    end.

(** The block under [glog.V(2)]: log a diff against the active file. *)
Definition OnUpdate_diff (content : list Byte.byte) : M (option error) :=
  src ← ReadFile cfgPath;
  if bytes_Equal src content then mret None
  else
    r ← CreateTemp os "" "new-nginx-cfg";
    match r with
    | inr err => mret (Some err)
    | inl tmpfile =>
        err ← WriteFile os tmpfile content;
        match err with
        | Some e => mret (Some e)
        | None =>
            Exec ["diff"; "-u"; cfgPath; tmpfile]%string;;
            Remove tmpfile;;
            mret None
        end
    end.

(** [OnUpdate] from the call of the template writer on; [written] is
    what [n.t.Write(tc)] returned. *)
Definition OnUpdate (written : list Byte.byte + error) : M (option error) :=
  match written with
  | inr err => mret (Some err)
  | inl content =>
      err ← testTemplate content;
      match err with
      | Some e => mret (Some e)
      | None =>
          err ← (if verbose os then OnUpdate_diff content else mret None);
          match err with
          | Some e => mret (Some e)
          | None =>
              err ← WriteFile os cfgPath content;
              match err with
              | Some e => mret (Some e)
              | None =>
                  out ← ask (nginxReload os);
                  Exec [binary; "-s"; "reload"; "-c"; cfgPath]%string;;
                  match out with
                  | Some o => mret (Some (ErrReload o))
                  | None => mret None
                  end
              end
          end
      end
  end.
End Apply.

End Legacy.

(** ** The newer controller: [renderTemplate] sizes, [OnUpdate] applies *)
Module Current.

Definition tempNginxPattern : string := "nginx-cfg".

(** One iteration of the loop over [ingressCfg.Servers]; the state is
    [(longestName, serverNameBytes)]. *)
Definition renderTemplate_server (acc : Z * Z) (srv : Server) : Z * Z :=
  let '(longestName, serverNameBytes) := acc in
  let hostnameLength := len (Hostname srv) in
  let hostnameLength :=
    if RedirectFromToWWW srv then GoInt.add hostnameLength 4
    else hostnameLength in
  let longestName :=
    if longestName <? hostnameLength then hostnameLength else longestName in
  let longestName :=
    fold_left (fun l alias => if l <? len alias then len alias else l)
              (Aliases srv) longestName in
  (longestName, GoInt.add serverNameBytes hostnameLength).

Definition renderTemplate_servers (servers : list Server) : Z * Z :=
  fold_left renderTemplate_server servers (0, 0).

(** The configuration [renderTemplate] hands to the template, as far as
    the sizes go.  [rlimit] is what [RlimitMaxNumFiles()] returns. *)
Definition renderTemplate (rlimit : Z) (cfg : Configuration)
    (servers : list Server) : Configuration :=
  let '(longestName, serverNameBytes) := renderTemplate_servers servers in
  let nameHashBucketSize := nginxHashBucketSize longestName in
  let cfg :=
    if ServerNameHashBucketSize cfg <? nameHashBucketSize
    then set_ServerNameHashBucketSize nameHashBucketSize cfg else cfg in
  let serverNameHashMaxSize := nextPowerOf2 serverNameBytes in
  let cfg :=
    if ServerNameHashMaxSize cfg <? serverNameHashMaxSize
    then set_ServerNameHashMaxSize serverNameHashMaxSize cfg else cfg in
  let cfg :=
    if MaxWorkerOpenFiles cfg =? 0 then
      let maxOpenFiles := GoInt.sub rlimit 1024 in
      let maxOpenFiles :=
        if maxOpenFiles <? 1024 then 1024 else maxOpenFiles in
      set_MaxWorkerOpenFiles maxOpenFiles cfg
    else cfg in
  if MaxWorkerConnections cfg =? 0 then
    let maxWorkerConnections :=
      int_of_float64
        (float64_of_int
           (GoInt.quo (GoInt.mul (MaxWorkerOpenFiles cfg) 3) 4)) in
    set_MaxWorkerConnections maxWorkerConnections cfg
  else cfg.

Section Apply.
Variable os : OS.
Variable binary : string.

Definition testTemplate (cfg : list Byte.byte) : M (option error) :=
  if (Z.of_nat (length cfg) =? 0)%Z then mret (Some ErrEmptyConfig)
  else
    let tmpDir := String.append (TempDir os) "/nginx" in
    r ← CreateTemp os tmpDir tempNginxPattern;
    match r with
    | inr err => mret (Some err)
    | inl tmpfile =>
        err ← WriteFile os tmpfile cfg;
        match err with
        | Some e => mret (Some e)
        | None =>
            out ← ask (fun w => nginxTest os w tmpfile);
            Exec [binary; "-t"; "-c"; tmpfile]%string;;
            match out with
            | Some o => mret (Some (ErrNginxTest o))
            | None => Remove tmpfile;; mret None
            end
        end
    end.

(** [createOpentracingCfg]; [expanded] is the outcome of executing the
    tracing template. *)
Definition createOpentracingCfg (expanded : list Byte.byte + error)
  : M (option error) :=
  match expanded with
  | inr err => mret (Some err)
  | inl text => WriteFile os "/etc/nginx/opentracing.json" text
  end.

(** The block under [klog.V(2)]. *)
Definition OnUpdate_diff (content : list Byte.byte) : M (option error) :=
  src ← ReadFile cfgPath;
  if bytes_Equal src content then mret None
  else
    r ← CreateTemp os "" "new-nginx-cfg";
    match r with
    | inr err => mret (Some err)
    | inl tmpfile =>
        err ← WriteFile os tmpfile content;
        match err with
        | Some e => mret (Some e)
        | None =>
            Exec ["diff"; "-I"; "'# Configuration.*'"; "-u"; cfgPath;
                  tmpfile]%string;;
            Remove tmpfile;;
            mret None
        end
    end.

(** [OnUpdate]; [generated] is what [generateTemplate] returned,
    [expanded] the tracing template's outcome and [grpc] tells whether
    [n.gRPCServer] is set. *)
Definition OnUpdate (grpc : bool) (generated expanded : list Byte.byte + error)
  : M (option error) :=
  match generated with
  | inr err => mret (Some err)
  | inl content =>
      err ← createOpentracingCfg expanded;
      match err with
      | Some e => mret (Some e)
      | None =>
          err ← testTemplate content;
          match err with
          | Some e => mret (Some e)
          | None =>
              err ← (if verbose os then OnUpdate_diff content
                     else mret None);
              match err with
              | Some e => mret (Some e)
              | None =>
                  err ← WriteFile os cfgPath content;
                  match err with
                  | Some e => mret (Some e)
                  | None =>
                      if grpc then mret None
                      else
                        out ← ask (nginxReload os);
                        Exec [binary; "-s"; "reload"]%string;;
                        match out with
                        | Some o => mret (Some (ErrReload o))
                        | None => mret None
                        end
                  end
              end
          end
      end
  end.
End Apply.

End Current.

(** ** Notions the statements below are phrased with *)

(** The length a server contributes: its hostname, and four more bytes
    when the [www.] redirect is asked for. *)
Definition www_length (srv : Server) : Z :=
  len (Hostname srv) + (if RedirectFromToWWW srv then 4 else 0).

(** All name lengths of a server: the (padded) hostname and the aliases. *)
Definition name_lengths (srv : Server) : list Z :=
  www_length srv :: map len (Aliases srv).

(** The longest name of a routing intent, as the specification words it. *)
Definition longest_spec (servers : list Server) : Z :=
  fold_right Z.max 0 (concat (map name_lengths servers)).

(** The plain sum of the hostname lengths. *)
Definition hostname_bytes (servers : list Server) : Z :=
  fold_right Z.add 0 (map (fun srv => len (Hostname srv)) servers).

(** The sum of the hostname lengths with the [www.] padding. *)
Definition www_bytes (servers : list Server) : Z :=
  fold_right Z.add 0 (map www_length servers).

(** A server whose padded hostname length is still an [int]; every
    string a Go program holds is far shorter. *)
Definition short_hostname (srv : Server) : Prop :=
  len (Hostname srv) + 4 <= GoInt.int_max.

(** [x] has a bit set wherever [v] has one at most [d] positions
    higher. *)
Definition covers (d : Z) (v x : Z) : Prop :=
  forall i j, 0 <= i -> i <= j <= i + d ->
              Z.testbit v j = true -> Z.testbit x i = true.

(** Every pairing comes from a flagged server and names no server of
    the intent. *)
Definition pairing_ok (all : list Server) (n h : string) : Prop :=
  Legacy.found all n = false /\
  exists srv, In srv all /\ RedirectFromToWWW srv = true /\
              Hostname srv = h /\ Legacy.redirectName h = n.

(** An event that creates, writes or removes the file at [p]. *)
Definition touches (p : string) (ev : event) : Prop :=
  match ev with
  | EvCreateTemp q | EvWriteFile q _ | EvRemove q => q = p
  | EvExec _ => False
  end.

(** From [w] to [w'] the history only grew, and every new event that
    touches [p] satisfies [ok]. *)
Definition only (p : string) (ok : event -> Prop) (w w' : world) : Prop :=
  exists evs, trace w' = trace w ++ evs /\
              Forall (fun ev => touches p ev -> ok ev) evs.

(** From [w] to [w'] nothing touched [p]: same bytes, no event on it. *)
Definition untouched (p : string) (w w' : world) : Prop :=
  files w' !! p = files w !! p /\ only p (fun _ => False) w w'.

(** ** A sample run, used to instantiate the statements

    An environment whose [nginx -t] rejects every file, and a state with
    an active configuration in place. *)
Definition sample_os : OS :=
  mkOS "/tmp" (fun _ => "4021337"%string) (fun _ _ => false)
       (fun _ _ _ => WriteOk)
       (fun _ _ => Some "nginx: [emerg] unexpected end of file"%string)
       (fun _ => None) true.

Definition sample_active : list Byte.byte :=
  list_byte_of_string "events {} http {}".

Definition sample_candidate : list Byte.byte :=
  list_byte_of_string "events {} http {".

Definition sample_world : world :=
  mkWorld {[ cfgPath := sample_active ]} [].

(** Case analysis on a condition that has no conditional inside, then
    the field projections are reduced. *)
Ltac case_inner_if :=
  match goal with
  | |- context [if ?c then _ else _] =>
      lazymatch c with
      | context [if _ then _ else _] => fail
      | _ => destruct c eqn:?
      end
  end;
  cbn [ServerNameHashBucketSize ServerNameHashMaxSize MaxWorkerOpenFiles
       MaxWorkerConnections set_ServerNameHashBucketSize
       set_ServerNameHashMaxSize set_MaxWorkerOpenFiles
       set_MaxWorkerConnections] in *.

(** ** SSL passthrough: from the declared backends to the proxy's list

    Both generations build the list with the same loop. *)

(** [int32(v)] *)
Definition int32 (z : Z) : Z := (z + 2 ^ 31) mod 2 ^ 32 - 2 ^ 31.

Definition is_digit (c : ascii) : bool :=
  (48 <=? N_of_ascii c)%N && (N_of_ascii c <=? 57)%N.

(** The value of a string of decimal digits, [None] at a byte that is
    no digit. *)
Fixpoint digits_value (s : string) (acc : Z) : option Z :=
  match s with
  | EmptyString => Some acc
  | String c rest =>
      if is_digit c
      then digits_value rest (10 * acc + (Z.of_N (N_of_ascii c) - 48))
      else None
  end.

(** [strconv.Atoi(s)]: the value and whether an error came with it.  A
    syntax error comes with 0, a value out of range with the nearest
    [int]. *)
Definition Atoi (s : string) : Z * bool :=
  match s with
  | EmptyString => (0, true)
  | String c rest =>
      let neg := Ascii.eqb c "-" in
      let digits := if neg || Ascii.eqb c "+" then rest else s in
      match digits with
      | EmptyString => (0, true)
      | _ =>
          match digits_value digits 0 with
          | None => (0, true)
          | Some n =>
              let v := if neg then - n else n in
              if v <? GoInt.int_min then (GoInt.int_min, true)
              else if GoInt.int_max <? v then (GoInt.int_max, true)
              else (v, false)
          end
      end
  end.

Module Passthrough.

(** Modelled from the spec: the declarations of the service, of its
    ports and of a PassthroughBackend entry (hostname, raw TCP endpoint)
    are missing from the sources; the records hold the fields the loop
    reads.  [pbPort] is the text [pb.Port.String()] returns, [spPort]
    an [int32]. *)
Record ServicePort := mkServicePort { spName : string; spPort : Z }.

Record Service := mkService { ClusterIP : string; Ports : list ServicePort }.

Record SSLPassthroughBackend := mkBackend {
  pbService : option Service;
  pbPort : string;
  pbHostname : string
}.

Record TCPServer := mkTCPServer {
  Hostname : string;
  IP : string;
  Port : Z;
  ProxyProtocol : bool
}.

(** The loop taken when the port is no number: the first port of that
    name, else [port] as it is. *)
Fixpoint portByName (ports : list ServicePort) (name : string) (port : Z)
  : Z :=
  match ports with
  | [] => port
  | sp :: rest =>
      if String.eqb (spName sp) name then spPort sp
      else portByName rest name port
  end.

(** The loop taken when the port is a number. *)
Fixpoint portByNumber (ports : list ServicePort) (port : Z) : Z :=
  match ports with
  | [] => port
  | sp :: rest =>
      if spPort sp =? int32 port then spPort sp
      else portByNumber rest port
  end.

Definition resolvePort (svc : Service) (portText : string) : Z :=
  let '(port, err) := Atoi portText in
  if err then portByName (Ports svc) portText port
  else portByNumber (Ports svc) port.

(** The loop over [ingressCfg.PassthroughBackends]. *)
Fixpoint servers (pbs : list SSLPassthroughBackend) : list TCPServer :=
  match pbs with
  | [] => []
  | pb :: rest =>
      match pbService pb with
      | None => servers rest
      | Some svc =>
          mkTCPServer (pbHostname pb) (ClusterIP svc)
                      (resolvePort svc (pbPort pb)) false
          :: servers rest
      end
  end.

(** [n.Proxy.ServerList] after the update: replaced when SSL passthrough
    is enabled, left as it was otherwise. *)
Definition ServerList (enabled : bool) (pbs : list SSLPassthroughBackend)
    (old : list TCPServer) : list TCPServer :=
  if enabled then servers pbs else old.

End Passthrough.

(** ** [SetConfig] of the older controller *)

(** [strconv.ParseBool(str)] *)
Definition ParseBool (str : string) : option bool :=
  if existsb (String.eqb str) ["1"; "t"; "T"; "TRUE"; "true"; "True"]%string
  then Some true
  else if existsb (String.eqb str)
            ["0"; "f"; "F"; "FALSE"; "false"; "False"]%string
  then Some false
  else None.

Section SetConfig.
Variable os : OS.
(** [ReadConfig(m).SSLSessionTicketKey], the template package's reading
    of the map. *)
Variable ticketKey : gmap string string -> string.
(** [base64.StdEncoding.DecodeString]: the bytes decoded, and whether an
    error came with them. *)
Variable DecodeString : string -> list Byte.byte * bool.

(** [SetConfig]; [cmap] is the data of the ConfigMap, [None] for a nil
    one.  The result is [n.IsProxyProtocolEnabled]. *)
Definition SetConfig (cmap : option (gmap string string)) : M bool :=
  let IsProxyProtocolEnabled := false in
  let m := match cmap with Some data => data | None => ∅ end in
  let IsProxyProtocolEnabled :=
    match m !! "use-proxy-protocol"%string with
    | Some val =>
        match ParseBool val with
        | Some b => b
        | None => IsProxyProtocolEnabled
        end
    | None => IsProxyProtocolEnabled
    end in
  (if String.eqb (ticketKey m) "" then mret None
   else
     let '(d, err) := DecodeString (ticketKey m) in
     WriteFile os "/etc/nginx/tickets.key" d);;
  mret IsProxyProtocolEnabled.
End SetConfig.

(** ** The Diffie-Hellman parameter file of the newer controller *)

(** [strings.Replace(s, "/", "-", -1)] *)
Fixpoint Replace_slash (s : string) : string :=
  match s with
  | EmptyString => EmptyString
  | String c rest =>
      String (if Ascii.eqb c "/" then "-"%char else c) (Replace_slash rest)
  end.

Section DHParam.
(** [file.DefaultSSLDirectory] *)
Variable DefaultSSLDirectory : string.
(** [n.store.GetSecret]: the data of the secret, [None] for an error; a
    value of [None] is a nil byte slice. *)
Variable GetSecret : string -> option (gmap string (option (list Byte.byte))).

(** [getDHParam]: the name of the file and its content. *)
Definition getDHParam (SSLDHParam : string)
  : string * option (list Byte.byte) :=
  let secretName := SSLDHParam in
  let nsSecName := Replace_slash secretName in
  match GetSecret secretName with
  | None => (EmptyString, None)
  | Some data =>
      match data !! "dhparam.pem"%string with
      | None => (EmptyString, None)
      | Some dh =>
          (String.append DefaultSSLDirectory
             (String.append "/" (String.append nsSecName ".pem")), dh)
      end
  end.

(** The start of [generateTemplate]: the [SSLDHParam] it passes on to
    [renderTemplate] and the arguments of its call of
    [ssl.AddOrUpdateDHParam], if it makes one.  The [sslDHParamFile]
    assigned inside the conditional is a variable of that block; the
    one read after it is the outer one. *)
Definition generateTemplate_DHParam (SSLDHParam : string)
  : string * option (string * option (list Byte.byte)) :=
  let sslDHParamFile := EmptyString in
  let '(cfg_SSLDHParam, call) :=
    if negb (String.eqb SSLDHParam "") then
      let '(sslDHParamFile', dh) := getDHParam SSLDHParam in
      let cfg_SSLDHParam :=
        if negb (String.eqb sslDHParamFile' "") && bool_decide (dh <> None)
        then sslDHParamFile' else SSLDHParam in
      (cfg_SSLDHParam, Some (sslDHParamFile', dh))
    else (SSLDHParam, None) in
  let cfg_SSLDHParam := sslDHParamFile in
  (cfg_SSLDHParam, call).

(** The end of [renderTemplate]: [(tc.DHParamFile, tc.DHParamContent)],
    both unset unless the secret yields a file. *)
Definition renderTemplate_DHParam (SSLDHParam : string)
  : string * option (list Byte.byte) :=
  if negb (String.eqb SSLDHParam "") then
    let '(dhfile, dhcontent) := getDHParam SSLDHParam in
    if negb (String.eqb dhfile "") && bool_decide (dhcontent <> None)
    then (dhfile, dhcontent) else (EmptyString, None)
  else (EmptyString, None).
End DHParam.

(** ** The sweep of old temporary files ([cleanTempNginxCfg]) *)
Module Janitor.

(** What [os.Lstat] tells about a file. *)
Record FileInfo := mkFileInfo {
  Name : string;
  IsDir : bool;
  ModTime : Z
}.

(** A name [filepath.Walk] comes across: [Lstat]'s answer ([None] for an
    error), whether the names of a directory can be read, and what
    [time.Now()] shows when the walk function is called on it.  Times
    are in nanoseconds. *)
Record dirent := mkDirent {
  deName : string;
  deInfo : option FileInfo;
  deReadable : bool;
  deNow : Z
}.

Definition fiveMinutes : Z := 5 * 60 * 1000000000.

Inductive walk_result :=
  | WalkNil
  | SkipDir
  | WalkErr (e : error).

(** The walk function: [err] tells whether the walk hands it an error;
    the list is the variable [files] it appends to. *)
Definition walkFn (TempDir path : string) (info : FileInfo) (err : bool)
    (now : Z) (files : list string) : walk_result * list string :=
  if err then (WalkErr (ErrOS "walk" path), files)
  else if IsDir info && negb (String.eqb TempDir path) then (SkipDir, files)
  else
    let fiveMinutesAgo := now - fiveMinutes in
    if HasPrefix (Name info) Current.tempNginxPattern
       && (ModTime info <? fiveMinutesAgo)
    then (WalkNil, files ++ [path])
    else (WalkNil, files).

(** [filepath.Join(root, name)] for a root in clean form other than
    ["/"] and the name of a directory entry. *)
Definition Join (root name : string) : string :=
  String.append root (String.append "/" name).

(** The loop of the walk over the names of the root directory; [None]
    when it runs to its end, else the error it stops with. *)
Fixpoint walkNames (TempDir : string) (names : list dirent)
    (files : list string) : option error * list string :=
  match names with
  | [] => (None, files)
  | de :: rest =>
      let filename := Join TempDir (deName de) in
      match deInfo de with
      | None => (Some (ErrOS "lstat" filename), files)
      | Some fileInfo =>
          let '(r, files') :=
            if IsDir fileInfo
            then walkFn TempDir filename fileInfo (negb (deReadable de))
                        (deNow de) files
            else walkFn TempDir filename fileInfo false (deNow de) files in
          match r with
          | WalkErr e => (Some e, files')
          | _ => walkNames TempDir rest files'
          end
      end
  end.

(** [filepath.Walk(os.TempDir(), walkFn)]: the error it returns and the
    files collected. *)
Definition Walk (TempDir : string) (root : dirent) (names : list dirent)
  : option error * list string :=
  match deInfo root with
  | None => (Some (ErrOS "lstat" TempDir), [])
  | Some info =>
      if negb (IsDir info) then
        match walkFn TempDir TempDir info false (deNow root) [] with
        | (WalkErr e, files) => (Some e, files)
        | (_, files) => (None, files)
        end
      else
        match walkFn TempDir TempDir info (negb (deReadable root))
                     (deNow root) [] with
        | (WalkErr e, files) => (Some e, files)
        | (SkipDir, files) => (None, files)
        | (WalkNil, files) => walkNames TempDir names files
        end
  end.

(** [os.Remove(file)] with its error looked at. *)
Definition RemoveFile (removeFails : world -> string -> bool) (file : string)
  : M (option error) :=
  fails ← ask (fun w => removeFails w file);
  emit (EvRemove file);;
  if (fails : bool) then mret (Some (ErrOS "remove" file))
  else update_files (delete file);; mret None.

(** The loop over the collected files. *)
Fixpoint removeAll (removeFails : world -> string -> bool)
    (files : list string) : M (option error) :=
  match files with
  | [] => mret None
  | file :: rest =>
      err ← RemoveFile removeFails file;
      match err with
      | Some e => mret (Some e)
      | None => removeAll removeFails rest
      end
  end.

Definition cleanTempNginxCfg (os : OS) (removeFails : world -> string -> bool)
    (root : dirent) (names : list dirent) : M (option error) :=
  match Walk (TempDir os) root names with
  | (Some err, _) => mret (Some err)
  | (None, files) => removeAll removeFails files
  end.

End Janitor.

(** ** Clearing what a dynamic update ignores *)
Section Clear.
Context {Cert Rest Endpoint Backend Svc : Type}.

(** Modelled from the spec: the declarations of [ingress.Server] and
    [ingress.L4Service] are missing from the sources.  Of a Server only
    the TLS material reference matters here, of a stream service its
    port, its backend, its endpoints and its service; what else a
    Server holds is one component. *)
Record CertServer := mkCertServer {
  SSLCert : option Cert;
  serverRest : Rest
}.

Record L4Service := mkL4Service {
  l4Port : Z;
  l4Backend : Backend;
  l4Endpoints : list Endpoint;
  l4Service : option Svc
}.

(** [clearCertificates]: the new value of [config.Servers]. *)
Fixpoint clearCertificates (servers : list CertServer) : list CertServer :=
  match servers with
  | [] => []
  | server :: rest =>
      mkCertServer None (serverRest server) :: clearCertificates rest
  end.

(** One of the two loops of [clearL4serviceEndpoints]. *)
Fixpoint clearL4 (services : list L4Service) : list L4Service :=
  match services with
  | [] => []
  | service :: rest =>
      mkL4Service (l4Port service) (l4Backend service) [] None
      :: clearL4 rest
  end.

(** [clearL4serviceEndpoints]: the new values of [config.TCPEndpoints]
    and [config.UDPEndpoints]. *)
Definition clearL4serviceEndpoints (tcp udp : list L4Service)
  : list L4Service * list L4Service :=
  (clearL4 tcp, clearL4 udp).
End Clear.

(** ** More notions for the statements *)

(** The first server flagged for the redirect whose paired name is [n]. *)
Definition first_flagged (servers : list Server) (n : string)
  : option Server :=
  find (fun srv => RedirectFromToWWW srv
                   && String.eqb (Legacy.redirectName (Hostname srv)) n)
       servers.

(** A server without redirect flag and without aliases. *)
Definition plain_server (srv : Server) : Prop :=
  RedirectFromToWWW srv = false /\ Aliases srv = [].

(** Room for a name of [l] bytes in a hash bucket of [size] bytes: the
    name, its two bytes of overhead and two words. *)
Definition fits_bucket (l size : Z) : Prop := l + 2 + 2 * wordSize <= size.

(** An entry of the temporary directory the sweep collects: no
    directory, a name that starts with the pattern, last modified more
    than five minutes before it is looked at. *)
Definition swept (de : Janitor.dirent) : bool :=
  match Janitor.deInfo de with
  | Some info =>
      negb (Janitor.IsDir info)
      && HasPrefix (Janitor.Name info) Current.tempNginxPattern
      && (Janitor.ModTime info <? Janitor.deNow de - Janitor.fiveMinutes)
  | None => false
  end.

(** The same test for the temporary directory itself. *)
Definition root_swept (root : Janitor.dirent) : bool :=
  match Janitor.deInfo root with
  | Some info =>
      HasPrefix (Janitor.Name info) Current.tempNginxPattern
      && (Janitor.ModTime info <? Janitor.deNow root - Janitor.fiveMinutes)
  | None => false
  end.

(** An entry the walk fails on: one [Lstat] fails for, or a directory
    whose names cannot be read. *)
Definition blocked (de : Janitor.dirent) : bool :=
  match Janitor.deInfo de with
  | None => true
  | Some info => Janitor.IsDir info && negb (Janitor.deReadable de)
  end.

(** A temporary directory that can be walked. *)
Definition walkable (root : Janitor.dirent) : Prop :=
  exists info, Janitor.deInfo root = Some info /\
               Janitor.IsDir info = true /\ Janitor.deReadable root = true.

(** The entries as a directory has them: no slash in a name, and
    [Lstat] reporting the name the entry has. *)
Definition proper_entry (de : Janitor.dirent) : Prop :=
  in_cutset "/" (Janitor.deName de) = false /\
  forall info, Janitor.deInfo de = Some info ->
               Janitor.Name info = Janitor.deName de.

(** From [w] to [w'] the history only grew, by events that satisfy [P]. *)
Definition grew (P : event -> Prop) (w w' : world) : Prop :=
  exists evs, trace w' = trace w ++ evs /\ Forall P evs.



(** * Proofs *)

(** ** The definitions at work *)

Example nextPowerOf2_values :
  map nextPowerOf2 [0; 1; 2; 3; 15; 16; 17; 19; 40]
  = [0; 1; 2; 4; 16; 16; 32; 32; 64].
Proof. reflexivity. Qed.

Example nginxHashBucketSize_values :
  map nginxHashBucketSize [0; 5; 6; 10; 14; 15; 46; 47]
  = [32; 32; 32; 32; 32; 64; 64; 128].
Proof. reflexivity. Qed.

Example TrimLeft_values :
  TrimLeft "www.example.com" "www." = "example.com"%string /\
  TrimLeft "www.www.example.com" "www." = "example.com"%string /\
  TrimLeft "www.web.com" "www." = "eb.com"%string /\
  TrimPrefix "www.www.example.com" "www." = "www.example.com"%string.
Proof. repeat split. Qed.

Example float64_values :
  float64_of_int 5 = S754_finite false (5 * 2 ^ 50) (-50) /\
  int_of_float64 (float64_of_int (-7)) = -7 /\
  int_of_float64 (float64_of_int (2 ^ 53 + 1)) = 2 ^ 53 /\
  int_of_float64 (float64_of_int (2 ^ 53 + 3)) = 2 ^ 53 + 4.
Proof. vm_compute. repeat split. Qed.

(** The single server [app.example.com] (15 bytes), nothing configured, a
    descriptor limit of [2^20]. *)
Example renderTemplate_app_example_com :
  Current.renderTemplate (2 ^ 20) (mkConfiguration 0 0 0 0)
                         [mkServer "app.example.com" [] false]
  = mkConfiguration 64 16 1047552 785664.
Proof. vm_compute. reflexivity. Qed.

Example OnUpdate_app_example_com :
  Legacy.OnUpdate_hashSizes (mkConfiguration 0 0 0 0)
                            [mkServer "app.example.com" [] false]
  = mkConfiguration 64 16 0 0 /\
  Legacy.OnUpdate_maxOpenFiles 100000 (Some 2) = Some 48976 /\
  Legacy.OnUpdate_maxOpenFiles 100000 None = Some 98976 /\
  Legacy.OnUpdate_maxOpenFiles 100000 (Some 0) = None.
Proof. vm_compute. repeat split. Qed.



(** ** Wrap-around arithmetic *)
Section GoIntFacts.
Import GoInt.

Lemma wrap_small z : is_int z -> wrap z = z.
Proof.
  unfold is_int, wrap, int_min, int_max. intros H.
  rewrite Z.mod_small by lia. lia.
Qed.

Lemma wrap_is_int z : is_int (wrap z).
Proof.
  unfold is_int, wrap, int_min, int_max.
  pose proof (Z.mod_pos_bound (z + 2 ^ 63) (2 ^ 64) ltac:(lia)). lia.
Qed.

(** [wrap] only sees its argument modulo [2 ^ 64]. *)
Lemma wrap_shift z k : wrap (z + k * 2 ^ 64) = wrap z.
Proof.
  unfold wrap. replace (z + k * 2 ^ 64 + 2 ^ 63) with (z + 2 ^ 63 + k * 2 ^ 64) by ring.
  now rewrite Z.mod_add by lia.
Qed.

Lemma wrap_decomp z : exists k, wrap z = z + k * 2 ^ 64.
Proof.
  unfold wrap. exists (- ((z + 2 ^ 63) / 2 ^ 64)).
  pose proof (Z.div_mod (z + 2 ^ 63) (2 ^ 64) ltac:(lia)). lia.
Qed.

Lemma wrap_add_l a b : wrap (wrap a + b) = wrap (a + b).
Proof.
  destruct (wrap_decomp a) as [k ->].
  replace (a + k * 2 ^ 64 + b) with (a + b + k * 2 ^ 64) by ring.
  apply wrap_shift.
Qed.

Lemma wrap_add_r a b : wrap (a + wrap b) = wrap (a + b).
Proof. rewrite Z.add_comm, wrap_add_l. f_equal. lia. Qed.

Lemma wrap_sub_l a b : wrap (wrap a - b) = wrap (a - b).
Proof. unfold Z.sub. apply wrap_add_l. Qed.
End GoIntFacts.

Section Smear.

Lemma or_shift_bit k v i :
  0 <= k -> 0 <= i ->
  Z.testbit (or_shift k v) i = Z.testbit v i || Z.testbit v (i + k).
Proof.
  intros Hk Hi. unfold or_shift, GoInt.or, GoInt.shr.
  now rewrite Z.lor_spec, Z.shiftr_spec.
Qed.

Lemma covers_refl v : covers 0 v v.
Proof. intros i j Hi Hj Hb. now replace i with j by lia. Qed.

Lemma covers_step d k v x :
  0 <= d -> 1 <= k <= d + 1 -> covers d v x -> covers (d + k) v (or_shift k x).
Proof.
  intros Hd Hk Hc i j Hi Hj Hb.
  rewrite or_shift_bit by lia. apply orb_true_iff.
  destruct (Z_le_gt_dec j (i + d)) as [Hle | Hgt].
  - left. apply (Hc i j); auto with zarith.
  - right. apply (Hc (i + k) j); auto with zarith.
Qed.

Lemma smear_covers v : covers 31 v (smear v).
Proof.
  unfold smear.
  change 31 with (0 + 1 + 2 + 4 + 8 + 16).
  repeat (apply covers_step; [lia | lia | ]).
  apply covers_refl.
Qed.

Lemma or_shift_high p k v :
  0 <= p -> 0 <= k ->
  (forall i, p <= i -> Z.testbit v i = false) ->
  forall i, p <= i -> Z.testbit (or_shift k v) i = false.
Proof.
  intros Hp Hk H i Hi. rewrite or_shift_bit by lia.
  rewrite !H by lia. reflexivity.
Qed.

Lemma smear_high p v :
  0 <= p ->
  (forall i, p <= i -> Z.testbit v i = false) ->
  forall i, p <= i -> Z.testbit (smear v) i = false.
Proof.
  intros Hp H. unfold smear.
  repeat (apply or_shift_high; [lia | lia | ]). exact H.
Qed.

(** On a positive value below [2 ^ 32] the five steps set every bit
    under the leading one. *)
Lemma smear_ones m :
  0 < m < 2 ^ 32 -> smear m = 2 ^ (Z.log2 m + 1) - 1.
Proof.
  intros Hm.
  assert (HL : 0 <= Z.log2 m < 32).
  { split; [apply Z.log2_nonneg|]. apply Z.log2_lt_pow2; lia. }
  rewrite Z.sub_1_r, <- Z.ones_equiv.
  apply Z.bits_inj'. intros i Hi.
  destruct (Z_lt_ge_dec i (Z.log2 m + 1)) as [Hlt | Hge].
  - rewrite Z.ones_spec_low by lia.
    apply (smear_covers m i (Z.log2 m)); [lia | lia |].
    apply Z.bit_log2. lia.
  - rewrite Z.ones_spec_high by lia.
    apply (smear_high (Z.log2 m + 1)); [lia | | lia].
    intros j Hj. apply Z.bits_above_log2; lia.
Qed.

Lemma nextPowerOf2_smear v :
  nextPowerOf2 v = GoInt.add (smear (GoInt.sub v 1)) 1.
Proof. reflexivity. Qed.

(** In the range the bit trick was written for, [nextPowerOf2] is the
    least power of two that is not below its argument. *)
Lemma nextPowerOf2_log2_up v :
  1 <= v <= 2 ^ 32 -> nextPowerOf2 v = 2 ^ Z.log2_up v.
Proof.
  intros Hv. rewrite nextPowerOf2_smear. unfold GoInt.sub, GoInt.add.
  rewrite (wrap_small (v - 1))
    by (unfold GoInt.is_int, GoInt.int_min, GoInt.int_max; lia).
  destruct (Z.eq_dec v 1) as [-> | Hne]; [reflexivity|].
  rewrite smear_ones by lia.
  rewrite Z.log2_up_eqn by lia.
  replace (Z.pred v) with (v - 1) by lia.
  replace (Z.succ (Z.log2 (v - 1))) with (Z.log2 (v - 1) + 1) by lia.
  assert (HL : 0 <= Z.log2 (v - 1) < 32).
  { split; [apply Z.log2_nonneg|]. apply Z.log2_lt_pow2; lia. }
  assert (2 ^ (Z.log2 (v - 1) + 1) <= 2 ^ 32) by (apply Z.pow_le_mono_r; lia).
  assert (0 < 2 ^ (Z.log2 (v - 1) + 1)) by (apply Z.pow_pos_nonneg; lia).
  rewrite wrap_small by (unfold GoInt.is_int, GoInt.int_min, GoInt.int_max; lia).
  lia.
Qed.
End Smear.

(** ** [nextPowerOf2] on its intended range and beyond *)

Lemma is_int_small z : - 2 ^ 32 <= z <= 2 ^ 33 -> GoInt.is_int z.
Proof. unfold GoInt.is_int, GoInt.int_min, GoInt.int_max. lia. Qed.

Lemma nextPowerOf2_wrap x : nextPowerOf2 (GoInt.wrap x) = nextPowerOf2 x.
Proof.
  rewrite !nextPowerOf2_smear. unfold GoInt.sub.
  now rewrite wrap_sub_l.
Qed.

Lemma log2_up_small v : 1 <= v <= 2 ^ 32 -> 0 <= Z.log2_up v <= 32.
Proof.
  intros Hv. split; [apply Z.log2_up_nonneg|].
  apply Z.log2_up_le_pow2; lia.
Qed.

Lemma nextPowerOf2_range v :
  1 <= v <= 2 ^ 32 -> 1 <= nextPowerOf2 v <= 2 ^ 32.
Proof.
  intros Hv. rewrite nextPowerOf2_log2_up by assumption.
  pose proof (log2_up_small v Hv) as HL. split.
  - assert (0 < 2 ^ Z.log2_up v) by (apply Z.pow_pos_nonneg; lia). lia.
  - apply Z.pow_le_mono_r; lia.
Qed.

Lemma nextPowerOf2_mono a b :
  1 <= a -> a <= b -> b <= 2 ^ 32 -> nextPowerOf2 a <= nextPowerOf2 b.
Proof.
  intros Ha Hab Hb. rewrite !nextPowerOf2_log2_up by lia.
  apply Z.pow_le_mono_r; [lia|]. apply Z.log2_up_le_mono. assumption.
Qed.

(** C7, as the code has it: on [[0, 2^32]] rounding up is idempotent,
    does not go below its argument and stays under twice the argument
    (for arguments above 1).  The bound is the reach of the five shifts
    (1, 2, 4, 8 and 16 positions) on a 64-bit [int]. *)
Theorem nextPowerOf2_rounds_up n :
  0 <= n <= 2 ^ 32 ->
  nextPowerOf2 (nextPowerOf2 n) = nextPowerOf2 n /\
  n <= nextPowerOf2 n /\
  (1 < n -> nextPowerOf2 n < 2 * n).
Proof.
  intros Hn. destruct (Z.eq_dec n 0) as [-> | Hne].
  { repeat split; [discriminate | lia]. }
  assert (Hn1 : 1 <= n <= 2 ^ 32) by lia.
  pose proof (log2_up_small n Hn1) as HL.
  pose proof (nextPowerOf2_range n Hn1) as HR.
  repeat split.
  - rewrite (nextPowerOf2_log2_up (nextPowerOf2 n)) by assumption.
    rewrite (nextPowerOf2_log2_up n) by assumption.
    now rewrite Z.log2_up_pow2 by lia.
  - rewrite nextPowerOf2_log2_up by assumption.
    apply Z.log2_log2_up_spec. lia.
  - intros H1. rewrite nextPowerOf2_log2_up by assumption.
    destruct (Z.log2_up_spec n H1) as [Hlo _].
    replace (Z.log2_up n) with (Z.succ (Z.pred (Z.log2_up n))) by lia.
    rewrite Z.pow_succ_r; [lia|].
    assert (0 < Z.log2_up n) by (apply Z.log2_up_pos; lia). lia.
Qed.

Lemma nextPowerOf2_rounds_up_witness :
  0 <= 19 <= 2 ^ 32 /\
  nextPowerOf2 (nextPowerOf2 19) = nextPowerOf2 19 /\
  19 <= nextPowerOf2 19 /\
  (1 < 19 -> nextPowerOf2 19 < 2 * 19).
Proof. split; [lia | apply (nextPowerOf2_rounds_up 19); lia]. Defined.

(** C7 as stated fails just above [2^32]: [2^32 + 1] is sent to
    [2^33 - 1], which is sent on to [2^33]. *)
Lemma nextPowerOf2_not_idempotent :
  0 <= 2 ^ 32 + 1 <= GoInt.int_max /\
  nextPowerOf2 (2 ^ 32 + 1) = 2 ^ 33 - 1 /\
  nextPowerOf2 (nextPowerOf2 (2 ^ 32 + 1)) = 2 ^ 33 /\
  nextPowerOf2 (nextPowerOf2 (2 ^ 32 + 1)) <> nextPowerOf2 (2 ^ 32 + 1).
Proof. vm_compute. repeat split; discriminate. Qed.

(** Near the top of the range the final increment overflows. *)
Lemma nextPowerOf2_overflows :
  nextPowerOf2 GoInt.int_max = GoInt.int_min.
Proof. reflexivity. Qed.

(** A negative value no further than [2^32] from zero has all its bits
    from position 32 on set. *)
Lemma testbit_small_negative m i :
  - 2 ^ 32 <= m < 0 -> 32 <= i -> Z.testbit m i = true.
Proof.
  intros Hm Hi. apply Z.bits_above_log2_neg; [lia|].
  destruct (Z.eq_dec m (-1)) as [-> | Hne]; [simpl; lia|].
  apply Z.lt_le_trans with 32; [|assumption].
  apply Z.log2_lt_pow2; lia.
Qed.

(** The five steps fill such a value up to [-1], unless its low 32 bits
    are all clear. *)
Lemma smear_small_negative m :
  - 2 ^ 32 < m < 0 -> smear m = -1.
Proof.
  intros Hm. apply Z.bits_inj'. intros i Hi. rewrite Z.bits_m1 by assumption.
  destruct (Z.eq_dec i 0) as [-> | Hi0].
  - destruct (Z.testbit (smear m) 0) eqn:E; [reflexivity | exfalso].
    assert (Hlow : forall j, 0 <= j < 32 -> Z.testbit m j = false).
    { intros j Hj. destruct (Z.testbit m j) eqn:Ej; [|reflexivity].
      rewrite (smear_covers m 0 j) in E; [discriminate | lia | lia | exact Ej]. }
    assert (Hmod : m mod 2 ^ 32 = 0).
    { apply Z.bits_inj'. intros j Hj. rewrite Z.bits_0.
      destruct (Z_lt_ge_dec j 32).
      - rewrite Z.mod_pow2_bits_low by lia. apply Hlow. lia.
      - apply Z.mod_pow2_bits_high. lia. }
    pose proof (Z.div_mod m (2 ^ 32) ltac:(lia)) as Hdm.
    assert (m / 2 ^ 32 = -1); [|lia].
    symmetry. apply (Z.div_unique m (2 ^ 32) (-1) (m + 2 ^ 32)); lia.
  - apply (smear_covers m i (Z.max i 32)); [lia | lia |].
    apply testbit_small_negative; lia.
Qed.

(** C10, as the code has it: every input from [- 2^32 + 2] up to [0]
    comes out as [0]. *)
Theorem nextPowerOf2_nonpositive v :
  - 2 ^ 32 + 1 < v <= 0 -> nextPowerOf2 v = 0.
Proof.
  intros Hv. rewrite nextPowerOf2_smear. unfold GoInt.sub, GoInt.add.
  rewrite (wrap_small (v - 1)) by (apply is_int_small; lia).
  rewrite smear_small_negative by lia. reflexivity.
Qed.

Lemma nextPowerOf2_nonpositive_witness :
  - 2 ^ 32 + 1 < -5 <= 0 /\ nextPowerOf2 (-5) = 0.
Proof. split; [lia | apply (nextPowerOf2_nonpositive (-5)); lia]. Defined.

(** C10 as stated fails further down: [- 2^32 + 1] comes out as [-1],
    [- 2^40 + 1] as [-511] and the smallest [int] as itself. *)
Lemma nextPowerOf2_negative_not_zero :
  GoInt.is_int (- 2 ^ 32 + 1) /\ - 2 ^ 32 + 1 <= 0 /\
  nextPowerOf2 (- 2 ^ 32 + 1) = -1 /\
  nextPowerOf2 (- 2 ^ 40 + 1) = -511 /\
  nextPowerOf2 GoInt.int_min = GoInt.int_min /\
  nextPowerOf2 (- 2 ^ 32 + 1) <> 0.
Proof. vm_compute. repeat split; discriminate. Qed.

(** ** [nginxHashBucketSize] *)

(** Clearing the three low bits rounds down to a multiple of eight. *)
Lemma land_not_7 z : Z.land z (Z.lnot 7) = 8 * (z / 8).
Proof.
  rewrite <- Z.ldiff_land. change 7 with (Z.ones 3).
  rewrite Z.ldiff_ones_r by lia.
  rewrite Z.shiftr_div_pow2, Z.shiftl_mul_pow2 by lia.
  change (2 ^ 3) with 8. lia.
Qed.

Lemma align_8 n : align n 8 = 8 * ((n + 7) / 8).
Proof. unfold align. replace (n + 8 - 1) with (n + 7) by lia. lia. Qed.

(** The raw size, freed of the wrap-around of the intermediate steps. *)
Lemma nginxHashBucketSize_raw longest :
  nginxHashBucketSize longest = nextPowerOf2 (16 + 8 * ((longest + 9) / 8)).
Proof.
  unfold nginxHashBucketSize, GoInt.and, GoInt.not, GoInt.sub, GoInt.add.
  change (GoInt.wrap (8 - 1)) with 7. change (GoInt.wrap (8 + 8)) with 16.
  rewrite wrap_add_l, wrap_sub_l.
  replace (longest + 2 + 8 - 1) with (longest + 9) by lia.
  rewrite land_not_7.
  destruct (wrap_decomp (longest + 9)) as [k ->].
  replace (longest + 9 + k * 2 ^ 64) with (longest + 9 + (k * 2 ^ 61) * 8)
    by (change (2 ^ 64) with (2 ^ 61 * 8); ring).
  rewrite Z.div_add by lia.
  replace (16 + 8 * ((longest + 9) / 8 + k * 2 ^ 61))
    with (16 + 8 * ((longest + 9) / 8) + k * 2 ^ 64)
    by (change (2 ^ 64) with (2 ^ 61 * 8); ring).
  rewrite wrap_shift. apply nextPowerOf2_wrap.
Qed.

(** C2: the bucket size computed by the code is the specification's
    [nextPow2(2*wordSize + align(longest+2, wordSize))] with
    [wordSize = 8], for every non-negative [longest]; in particular
    [longest = 10] gives [align(12, 8) = 16], a raw size of [32] and a
    bucket size of [32]. *)
Theorem nginxHashBucketSize_spec longest :
  0 <= longest ->
  nginxHashBucketSize longest = bucketSize_spec longest /\
  (align (10 + 2) wordSize = 16 /\
   2 * wordSize + align (10 + 2) wordSize = 32 /\
   nextPowerOf2 32 = 32 /\
   nginxHashBucketSize 10 = 32).
Proof.
  intros _. split; [|repeat split].
  rewrite nginxHashBucketSize_raw. unfold bucketSize_spec, wordSize.
  rewrite align_8. replace (longest + 2 + 7) with (longest + 9) by lia.
  reflexivity.
Qed.

Lemma nginxHashBucketSize_spec_witness :
  0 <= 15 /\ nginxHashBucketSize 15 = bucketSize_spec 15.
Proof.
  split; [lia | apply (nginxHashBucketSize_spec 15); lia].
Defined.

(** C8, as the code has it: the bucket size is non-decreasing as long
    as the raw size stays within [2^32], that is for names of up to
    [2^32 - 18] bytes. *)
Theorem nginxHashBucketSize_mono a b :
  0 <= a -> a <= b -> b <= 2 ^ 32 - 18 ->
  nginxHashBucketSize a <= nginxHashBucketSize b.
Proof.
  intros Ha Hab Hb. rewrite !nginxHashBucketSize_raw.
  assert (Hdiv : (a + 9) / 8 <= (b + 9) / 8)
    by (apply Z.div_le_mono; lia).
  assert (H0 : 0 <= (a + 9) / 8) by (apply Z.div_pos; lia).
  assert (Hup : (b + 9) / 8 <= (2 ^ 32 - 9) / 8)
    by (apply Z.div_le_mono; lia).
  change ((2 ^ 32 - 9) / 8) with (2 ^ 29 - 2) in Hup.
  apply nextPowerOf2_mono; lia.
Qed.

Lemma nginxHashBucketSize_mono_witness :
  0 <= 10 /\ 10 <= 15 /\ 15 <= 2 ^ 32 - 18 /\
  nginxHashBucketSize 10 <= nginxHashBucketSize 15.
Proof.
  repeat split; [lia | lia | lia | apply (nginxHashBucketSize_mono 10 15); lia].
Defined.

(** C8 as stated fails for longer names: the bucket size for
    [2^40 + 2^34 - 2] bytes is [2^41], that for the longer
    [2^40 + 2^35 - 10] bytes is [2^41 - 8]. *)
Lemma nginxHashBucketSize_not_monotone :
  0 <= 2 ^ 40 + 2 ^ 34 - 2 /\
  2 ^ 40 + 2 ^ 34 - 2 <= 2 ^ 40 + 2 ^ 35 - 10 /\
  2 ^ 40 + 2 ^ 35 - 10 <= GoInt.int_max /\
  nginxHashBucketSize (2 ^ 40 + 2 ^ 34 - 2) = 2 ^ 41 /\
  nginxHashBucketSize (2 ^ 40 + 2 ^ 35 - 10) = 2 ^ 41 - 8 /\
  ~ nginxHashBucketSize (2 ^ 40 + 2 ^ 34 - 2)
    <= nginxHashBucketSize (2 ^ 40 + 2 ^ 35 - 10).
Proof.
  vm_compute. repeat split; try discriminate. intros H. now apply H.
Qed.

(** ** The loops over the servers *)

Lemma len_nonneg s : 0 <= len s.
Proof. unfold len. lia. Qed.

Lemma max_ltb a b : (if a <? b then b else a) = Z.max a b.
Proof. destruct (Z.ltb_spec a b); lia. Qed.

Lemma fold_max_nonneg l : 0 <= fold_right Z.max 0 l.
Proof. induction l as [|x l IH]; simpl; lia. Qed.

Lemma fold_max_app l1 l2 :
  fold_right Z.max 0 (l1 ++ l2) =
  Z.max (fold_right Z.max 0 l1) (fold_right Z.max 0 l2).
Proof.
  induction l1 as [|x l1 IH]; simpl.
  - pose proof (fold_max_nonneg l2). lia.
  - rewrite IH. lia.
Qed.

(** The loop over the aliases of one server. *)
Lemma fold_aliases aliases l0 :
  0 <= l0 ->
  fold_left (fun l alias => if l <? len alias then len alias else l)
            aliases l0
  = Z.max l0 (fold_right Z.max 0 (map len aliases)).
Proof.
  revert l0. induction aliases as [|a aliases IH]; intros l0 Hl; simpl.
  - lia.
  - rewrite max_ltb, IH; lia.
Qed.

Lemma hostnameLength_www srv :
  short_hostname srv ->
  (if RedirectFromToWWW srv then GoInt.add (len (Hostname srv)) 4
   else len (Hostname srv)) = www_length srv.
Proof.
  unfold short_hostname, www_length, GoInt.add. intros Hs.
  pose proof (len_nonneg (Hostname srv)).
  destruct (RedirectFromToWWW srv); [|lia].
  apply wrap_small. unfold GoInt.is_int, GoInt.int_min, GoInt.int_max in *. lia.
Qed.

(** The longest name the newer loop finds. *)
Lemma renderTemplate_servers_longest servers :
  Forall short_hostname servers ->
  forall a b, 0 <= a ->
    fst (fold_left Current.renderTemplate_server servers (a, b))
    = Z.max a (longest_spec servers).
Proof.
  induction 1 as [|srv servers Hs _ IH]; intros a b Ha.
  - unfold longest_spec. simpl. lia.
  - cbn [fold_left]. unfold Current.renderTemplate_server at 2.
    rewrite hostnameLength_www by assumption.
    rewrite max_ltb.
    rewrite fold_aliases by lia.
    pose proof (fold_max_nonneg (map len (Aliases srv))).
    rewrite IH by lia.
    unfold longest_spec. cbn [map concat].
    rewrite fold_max_app. unfold name_lengths. cbn [fold_right]. lia.
Qed.

(** The byte count the newer loop finds, up to wrap-around. *)
Lemma renderTemplate_servers_bytes servers :
  forall a b, exists k,
    snd (fold_left Current.renderTemplate_server servers (a, b))
    = b + www_bytes servers + k * 2 ^ 64.
Proof.
  induction servers as [|srv servers IH]; intros a b.
  - exists 0. unfold www_bytes. simpl. lia.
  - cbn [fold_left]. unfold Current.renderTemplate_server at 2.
    match goal with
    | |- context [fold_left _ servers (?x, ?y)] =>
        destruct (IH x y) as [k ->]
    end.
    unfold GoInt.add at 1.
    match goal with
    | |- context [GoInt.wrap (b + ?h)] =>
        destruct (wrap_decomp (b + h)) as [k1 ->];
        assert (Hh : exists k2, h = www_length srv + k2 * 2 ^ 64)
    end.
    { unfold www_length, GoInt.add.
      destruct (RedirectFromToWWW srv).
      - destruct (wrap_decomp (len (Hostname srv) + 4)) as [k2 ->].
        now exists k2.
      - exists 0. lia. }
    destruct Hh as [k2 ->].
    exists (k + k1 + k2). unfold www_bytes. cbn [map fold_right]. ring.
Qed.

(** The same two facts for the older loop. *)
Lemma OnUpdate_servers_longest all servers :
  forall acc, 0 <= Legacy.longestName acc ->
    Legacy.longestName (fold_left (Legacy.OnUpdate_server all) servers acc)
    = Z.max (Legacy.longestName acc)
            (fold_right Z.max 0 (map (fun s => len (Hostname s)) servers)).
Proof.
  induction servers as [|srv servers IH]; intros acc Ha.
  - simpl. lia.
  - cbn [fold_left]. rewrite IH.
    + unfold Legacy.OnUpdate_server. cbn [Legacy.longestName map fold_right].
      rewrite max_ltb. lia.
    + unfold Legacy.OnUpdate_server. cbn [Legacy.longestName].
      rewrite max_ltb. lia.
Qed.

Lemma OnUpdate_servers_bytes all servers :
  forall acc, exists k,
    Legacy.serverNameBytes (fold_left (Legacy.OnUpdate_server all) servers acc)
    = Legacy.serverNameBytes acc + hostname_bytes servers + k * 2 ^ 64.
Proof.
  induction servers as [|srv servers IH]; intros acc.
  - exists 0. unfold hostname_bytes. simpl. lia.
  - cbn [fold_left].
    destruct (IH (Legacy.OnUpdate_server all acc srv)) as [k ->].
    unfold Legacy.OnUpdate_server at 1. cbn [Legacy.serverNameBytes].
    unfold GoInt.add.
    destruct (wrap_decomp
                (Legacy.serverNameBytes acc + len (Hostname srv))) as [k1 ->].
    exists (k + k1). unfold hostname_bytes. cbn [map fold_right]. ring.
Qed.

Lemma nextPowerOf2_shift x k : nextPowerOf2 (x + k * 2 ^ 64) = nextPowerOf2 x.
Proof.
  rewrite <- (nextPowerOf2_wrap (x + k * 2 ^ 64)), wrap_shift.
  apply nextPowerOf2_wrap.
Qed.

(** ** The fields [renderTemplate] and the older [OnUpdate] set *)

Lemma renderTemplate_ServerNameHashBucketSize rlimit cfg servers :
  ServerNameHashBucketSize (Current.renderTemplate rlimit cfg servers)
  = Z.max (ServerNameHashBucketSize cfg)
          (nginxHashBucketSize
             (fst (Current.renderTemplate_servers servers))).
Proof.
  unfold Current.renderTemplate.
  destruct (Current.renderTemplate_servers servers) as [l s]. cbn [fst].
  rewrite <- max_ltb.
  repeat case_inner_if; reflexivity.
Qed.

Lemma renderTemplate_ServerNameHashMaxSize rlimit cfg servers :
  ServerNameHashMaxSize (Current.renderTemplate rlimit cfg servers)
  = Z.max (ServerNameHashMaxSize cfg)
          (nextPowerOf2 (snd (Current.renderTemplate_servers servers))).
Proof.
  unfold Current.renderTemplate.
  destruct (Current.renderTemplate_servers servers) as [l s]. cbn [snd].
  rewrite <- max_ltb.
  repeat case_inner_if; reflexivity.
Qed.

Lemma OnUpdate_ServerNameHashBucketSize cfg servers :
  ServerNameHashBucketSize (Legacy.OnUpdate_hashSizes cfg servers)
  = if ServerNameHashBucketSize cfg =? 0
    then nginxHashBucketSize
           (Legacy.longestName (Legacy.OnUpdate_servers servers))
    else ServerNameHashBucketSize cfg.
Proof.
  unfold Legacy.OnUpdate_hashSizes.
  repeat case_inner_if; reflexivity.
Qed.

Lemma OnUpdate_ServerNameHashMaxSize cfg servers :
  ServerNameHashMaxSize (Legacy.OnUpdate_hashSizes cfg servers)
  = Z.max (ServerNameHashMaxSize cfg)
          (nextPowerOf2
             (Legacy.serverNameBytes (Legacy.OnUpdate_servers servers))).
Proof.
  unfold Legacy.OnUpdate_hashSizes. rewrite <- max_ltb.
  repeat case_inner_if; reflexivity.
Qed.

(** ** The server-name hash sizes *)

(** X3: in [renderTemplate] the bucket size becomes the computed value
    exactly when that exceeds the configured one; it is never reduced. *)
Lemma renderTemplate_raises_bucket_size rlimit cfg servers :
  let computed :=
    nginxHashBucketSize (fst (Current.renderTemplate_servers servers)) in
  let effective :=
    ServerNameHashBucketSize (Current.renderTemplate rlimit cfg servers) in
  (ServerNameHashBucketSize cfg < computed -> effective = computed) /\
  (computed <= ServerNameHashBucketSize cfg ->
   effective = ServerNameHashBucketSize cfg) /\
  ServerNameHashBucketSize cfg <= effective.
Proof.
  cbv zeta. rewrite renderTemplate_ServerNameHashBucketSize. lia.
Qed.

(** C3 at a failing input of the older [OnUpdate]: a configured bucket
    size of 16 and the single server [app.example.com].  The computed
    size is 64; the older code leaves 16 in place, as it only fills in a
    size that is zero, whereas [renderTemplate] raises it to 64. *)
Theorem OnUpdate_keeps_small_bucket_size :
  let cfg := mkConfiguration 16 0 0 0 in
  let servers := [mkServer "app.example.com" [] false] in
  nginxHashBucketSize (Legacy.longestName (Legacy.OnUpdate_servers servers))
    = 64 /\
  ServerNameHashBucketSize (Legacy.OnUpdate_hashSizes cfg servers) = 16 /\
  ServerNameHashBucketSize (Current.renderTemplate 1048576 cfg servers) = 64.
Proof. vm_compute. repeat split. Qed.

(** X4: in [renderTemplate] the longest name is the maximum over the
    padded hostnames and the aliases, whenever the padded hostname
    lengths are [int]s. *)
Lemma renderTemplate_longest servers :
  Forall short_hostname servers ->
  fst (Current.renderTemplate_servers servers) = longest_spec servers.
Proof.
  intros Hs. unfold Current.renderTemplate_servers.
  rewrite renderTemplate_servers_longest by (assumption || lia).
  unfold longest_spec.
  pose proof (fold_max_nonneg (concat (map name_lengths servers))). lia.
Qed.

(** The older loop only looks at the hostnames. *)
Lemma OnUpdate_longest servers :
  Legacy.longestName (Legacy.OnUpdate_servers servers)
  = fold_right Z.max 0 (map (fun s => len (Hostname s)) servers).
Proof.
  unfold Legacy.OnUpdate_servers.
  rewrite OnUpdate_servers_longest by (cbn; lia). cbn [Legacy.longestName].
  pose proof (fold_max_nonneg (map (fun s => len (Hostname s)) servers)). lia.
Qed.

(** C4 at a failing input of the older [OnUpdate]: the single server
    [example.com], flagged for the [www.] redirect.  The redirect map
    gets the 15-byte name [www.example.com], yet the longest name is
    taken to be 11; [renderTemplate] takes 15, as the claim says. *)
Theorem OnUpdate_longest_ignores_redirect :
  let servers := [mkServer "example.com" [] true] in
  Legacy.redirectServers (Legacy.OnUpdate_servers servers)
    !! "www.example.com" = Some "example.com" /\
  Legacy.longestName (Legacy.OnUpdate_servers servers) = 11 /\
  longest_spec servers = 15 /\
  fst (Current.renderTemplate_servers servers) = 15.
Proof. vm_compute. repeat split. Qed.

(** C5, as the code has it: [renderTemplate] raises the configured
    maximum size to the next power of two of the summed hostname
    lengths, each padded by four bytes when the server is flagged for
    the [www.] redirect, and never lowers it; for the single unflagged
    server [app.example.com] the candidate is [nextPowerOf2 15].  The
    older [OnUpdate] does the same with the unpadded sum. *)
Theorem renderTemplate_hash_max_size rlimit cfg servers aliases :
  ServerNameHashMaxSize (Current.renderTemplate rlimit cfg servers)
    = Z.max (ServerNameHashMaxSize cfg) (nextPowerOf2 (www_bytes servers)) /\
  nextPowerOf2 (www_bytes [mkServer "app.example.com" aliases false])
    = nextPowerOf2 (len "app.example.com") /\
  ServerNameHashMaxSize (Legacy.OnUpdate_hashSizes cfg servers)
    = Z.max (ServerNameHashMaxSize cfg)
            (nextPowerOf2 (hostname_bytes servers)).
Proof.
  repeat split.
  - rewrite renderTemplate_ServerNameHashMaxSize.
    unfold Current.renderTemplate_servers.
    destruct (renderTemplate_servers_bytes servers 0 0) as [k ->].
    now rewrite nextPowerOf2_shift.
  - rewrite OnUpdate_ServerNameHashMaxSize. unfold Legacy.OnUpdate_servers.
    destruct (OnUpdate_servers_bytes servers servers (Legacy.mkSizes 0 0 ∅))
      as [k ->].
    cbn [Legacy.serverNameBytes]. now rewrite nextPowerOf2_shift.
Qed.

(** C5 as stated fails in [renderTemplate] for a server flagged for the
    redirect: with [app.example.com] flagged and no maximum size
    configured the result is [nextPowerOf2 19 = 32], not
    [nextPowerOf2 15 = 16]. *)
Lemma renderTemplate_hash_max_size_counts_www :
  let cfg := mkConfiguration 0 0 0 0 in
  let servers := [mkServer "app.example.com" [] true] in
  nextPowerOf2 (hostname_bytes servers) = 16 /\
  ServerNameHashMaxSize (Current.renderTemplate 1048576 cfg servers) = 32 /\
  ServerNameHashMaxSize (Current.renderTemplate 1048576 cfg servers)
    <> Z.max (ServerNameHashMaxSize cfg)
             (nextPowerOf2 (hostname_bytes servers)).
Proof. vm_compute. repeat split; discriminate. Qed.

(** ** [float64] conversion of small integers *)

Lemma digits2_pos_bounds m :
  2 ^ (Zpos (digits2_pos m) - 1) <= Zpos m < 2 ^ Zpos (digits2_pos m).
Proof.
  induction m as [p IH | p IH |]; cbn [digits2_pos].
  - rewrite Pos2Z.inj_succ, (Pos2Z.inj_xI p).
    replace (Z.succ (Zpos (digits2_pos p)) - 1)
      with (Z.succ (Zpos (digits2_pos p) - 1)) by lia.
    rewrite !Z.pow_succ_r by lia. lia.
  - rewrite Pos2Z.inj_succ, (Pos2Z.inj_xO p).
    replace (Z.succ (Zpos (digits2_pos p)) - 1)
      with (Z.succ (Zpos (digits2_pos p) - 1)) by lia.
    rewrite !Z.pow_succ_r by lia. lia.
  - simpl. lia.
Qed.

Lemma digits2_pos_small m : Zpos m < 2 ^ 53 -> Zpos (digits2_pos m) <= 53.
Proof.
  intros Hm. destruct (digits2_pos_bounds m) as [Hlo _].
  destruct (Z_le_gt_dec (Zpos (digits2_pos m)) 53) as [|Hgt]; [assumption|].
  assert (2 ^ 53 <= 2 ^ (Zpos (digits2_pos m) - 1))
    by (apply Z.pow_le_mono_r; lia).
  lia.
Qed.

Lemma digits2_pos_iter m k :
  digits2_pos (Pos.iter xO m k) = (digits2_pos m + k)%positive.
Proof.
  induction k as [|k IH] using Pos.peano_ind.
  - simpl. lia.
  - rewrite Pos.iter_succ. cbn [digits2_pos]. rewrite IH. lia.
Qed.

Lemma Zpos_iter_xO m k : Zpos (Pos.iter xO m k) = Zpos m * 2 ^ Zpos k.
Proof.
  induction k as [|k IH] using Pos.peano_ind.
  - simpl. lia.
  - rewrite Pos.iter_succ, Pos2Z.inj_xO, IH, Pos2Z.inj_succ.
    rewrite Z.pow_succ_r by lia. ring.
Qed.

(** A mantissa of exactly 53 bits needs no rounding. *)
Lemma binary_round_aux_exact mz ez :
  Zpos (digits2_pos mz) = 53 -> -1074 <= ez <= 971 ->
  binary_round_aux 53 1024 false (Zpos mz) ez loc_Exact
  = S754_finite false mz ez.
Proof.
  intros Hd He.
  assert (Hf : fexp 53 1024 (53 + ez) = ez) by (unfold fexp, emin; lia).
  unfold binary_round_aux, shr_fexp, Zdigits2.
  rewrite Hd, Hf, Z.sub_diag. cbn [shr shr_record_of_loc shr_m
    loc_of_shr_record round_nearest_even].
  rewrite Hd, Hf, Z.sub_diag. cbn [shr shr_record_of_loc shr_m].
  destruct (Z.leb_spec ez (1024 - 53)); [reflexivity | lia].
Qed.

(** Integers below [2^53] survive the trip through [float64]. *)
Lemma float64_roundtrip z :
  0 <= z < 2 ^ 53 -> int_of_float64 (float64_of_int z) = z.
Proof.
  intros Hz. destruct z as [|m|m]; [reflexivity | | lia].
  pose proof (digits2_pos_small m ltac:(lia)) as Hd.
  unfold float64_of_int, binary_normalize, binary_round.
  assert (Hf : fexp 53 1024 (Zpos (digits2_pos m) + 0)
               = Zpos (digits2_pos m) - 53) by (unfold fexp, emin; lia).
  rewrite Hf. unfold shl_align. rewrite Z.sub_0_r.
  destruct (Zpos (digits2_pos m) - 53) as [|k|k] eqn:Ek; [ | lia | ].
  - rewrite binary_round_aux_exact by lia.
    unfold int_of_float64. cbn [Z.leb Z.compare].
    rewrite Z.pow_0_r, Z.mul_1_r.
    unfold GoInt.int_min, GoInt.int_max.
    destruct (Z.leb_spec (- 2 ^ 63) (Zpos m)); [|lia].
    destruct (Z.leb_spec (Zpos m) (2 ^ 63 - 1)); [reflexivity | lia].
  - rewrite binary_round_aux_exact.
    + unfold int_of_float64. cbn [Z.leb Z.compare Z.opp].
      rewrite Zpos_iter_xO, Z.div_mul by lia.
      unfold GoInt.int_min, GoInt.int_max.
      destruct (Z.leb_spec (- 2 ^ 63) (Zpos m)); [|lia].
      destruct (Z.leb_spec (Zpos m) (2 ^ 63 - 1)); [reflexivity | lia].
    + rewrite digits2_pos_iter. lia.
    + lia.
Qed.

(** ** The worker limits *)

Lemma renderTemplate_MaxWorkerOpenFiles rlimit cfg servers :
  MaxWorkerOpenFiles (Current.renderTemplate rlimit cfg servers)
  = if MaxWorkerOpenFiles cfg =? 0
    then Z.max 1024 (GoInt.sub rlimit 1024)
    else MaxWorkerOpenFiles cfg.
Proof.
  unfold Current.renderTemplate.
  destruct (Current.renderTemplate_servers servers) as [l s].
  rewrite Z.max_comm, <- max_ltb.
  repeat case_inner_if; reflexivity.
Qed.

Lemma renderTemplate_MaxWorkerConnections rlimit cfg servers :
  MaxWorkerConnections (Current.renderTemplate rlimit cfg servers)
  = if MaxWorkerConnections cfg =? 0
    then int_of_float64
           (float64_of_int
              (GoInt.quo
                 (GoInt.mul
                    (MaxWorkerOpenFiles
                       (Current.renderTemplate rlimit cfg servers)) 3) 4))
    else MaxWorkerConnections cfg.
Proof.
  rewrite renderTemplate_MaxWorkerOpenFiles.
  unfold Current.renderTemplate.
  destruct (Current.renderTemplate_servers servers) as [l s].
  rewrite Z.max_comm, <- max_ltb.
  repeat case_inner_if; reflexivity.
Qed.

(** Three quarters of a count below [2^53], the way the code computes
    it. *)
Lemma three_quarters x :
  0 <= x < 2 ^ 53 ->
  int_of_float64 (float64_of_int (GoInt.quo (GoInt.mul x 3) 4)) = x * 3 / 4.
Proof.
  intros Hx. unfold GoInt.quo, GoInt.mul.
  rewrite (wrap_small (x * 3))
    by (unfold GoInt.is_int, GoInt.int_min, GoInt.int_max; lia).
  rewrite Z.quot_div_nonneg by lia.
  assert (0 <= x * 3 / 4 < 2 ^ 53).
  { split; [apply Z.div_pos; lia|]. apply Z.div_lt_upper_bound; lia. }
  rewrite wrap_small
    by (unfold GoInt.is_int, GoInt.int_min, GoInt.int_max; lia).
  now apply float64_roundtrip.
Qed.

(** C9, as the code has it: when no limit of open files is configured,
    [renderTemplate] derives it as [max(1024, limit - 1024)] from the
    descriptor limit of the process (an [int] not within 1024 of the
    smallest one); and when no worker connections are configured
    either, they are [floor(maxOpenFiles * 3 / 4)] of that derived
    limit, as long as the descriptor limit does not exceed [2^53]. *)
Theorem renderTemplate_worker_limits rlimit cfg servers :
  GoInt.int_min + 1024 <= rlimit <= GoInt.int_max ->
  MaxWorkerOpenFiles cfg = 0 ->
  let cfg' := Current.renderTemplate rlimit cfg servers in
  MaxWorkerOpenFiles cfg' = Z.max 1024 (rlimit - 1024) /\
  (rlimit <= 2 ^ 53 -> MaxWorkerConnections cfg = 0 ->
   MaxWorkerConnections cfg' = Z.max 1024 (rlimit - 1024) * 3 / 4).
Proof.
  intros Hr Ho. cbv zeta.
  rewrite renderTemplate_MaxWorkerConnections.
  rewrite renderTemplate_MaxWorkerOpenFiles, Ho. cbn [Z.eqb].
  unfold GoInt.sub, GoInt.int_min, GoInt.int_max in *.
  rewrite wrap_small
    by (unfold GoInt.is_int, GoInt.int_min, GoInt.int_max; lia).
  split; [reflexivity|].
  intros Hr' ->. cbn [Z.eqb]. apply three_quarters. lia.
Qed.

Lemma renderTemplate_worker_limits_witness :
  GoInt.int_min + 1024 <= 1048576 <= GoInt.int_max /\
  MaxWorkerOpenFiles (mkConfiguration 0 0 0 0) = 0 /\
  MaxWorkerOpenFiles
    (Current.renderTemplate 1048576 (mkConfiguration 0 0 0 0) [])
    = Z.max 1024 (1048576 - 1024) /\
  (1048576 <= 2 ^ 53 ->
   MaxWorkerConnections (mkConfiguration 0 0 0 0) = 0 ->
   MaxWorkerConnections
     (Current.renderTemplate 1048576 (mkConfiguration 0 0 0 0) [])
     = Z.max 1024 (1048576 - 1024) * 3 / 4).
Proof.
  split; [unfold GoInt.int_min, GoInt.int_max; lia|].
  split; [reflexivity|].
  apply (renderTemplate_worker_limits 1048576 (mkConfiguration 0 0 0 0) []);
    [unfold GoInt.int_min, GoInt.int_max; lia | reflexivity].
Defined.

(** C9 as stated fails for larger limits: with a limit of
    [2^54 + 1026] the open files are [2^54 + 2], three quarters of
    which is the odd number [3 * 2^52 + 1]; [float64] has no such value
    and the tie goes to the even [3 * 2^52]. *)
Lemma renderTemplate_worker_connections_rounded :
  let cfg' :=
    Current.renderTemplate (2 ^ 54 + 1026) (mkConfiguration 0 0 0 0) [] in
  GoInt.is_int (2 ^ 54 + 1026) /\
  MaxWorkerOpenFiles cfg' = 2 ^ 54 + 2 /\
  (2 ^ 54 + 2) * 3 / 4 = 3 * 2 ^ 52 + 1 /\
  MaxWorkerConnections cfg' = 3 * 2 ^ 52 /\
  MaxWorkerConnections cfg' <> MaxWorkerOpenFiles cfg' * 3 / 4.
Proof. vm_compute. repeat split; discriminate. Qed.

(** The older [OnUpdate] first divides the system-wide limit among the
    worker processes. *)
Lemma OnUpdate_maxOpenFiles_per_worker fileMax wp :
  0 <= fileMax <= GoInt.int_max -> 0 < wp ->
  Legacy.OnUpdate_maxOpenFiles fileMax (Some wp)
  = Some (Z.max 1024 (fileMax / wp - 1024)).
Proof.
  intros Hf Hw. unfold Legacy.OnUpdate_maxOpenFiles.
  destruct (Z.eqb_spec wp 0); [lia|].
  unfold GoInt.quo, GoInt.sub. rewrite Z.quot_div_nonneg by lia.
  assert (0 <= fileMax / wp <= fileMax).
  { split; [apply Z.div_pos; lia|]. apply Z.div_le_upper_bound; nia. }
  rewrite (wrap_small (fileMax / wp))
    by (unfold GoInt.is_int, GoInt.int_min, GoInt.int_max in *; lia).
  rewrite wrap_small
    by (unfold GoInt.is_int, GoInt.int_min, GoInt.int_max in *; lia).
  rewrite max_ltb. f_equal. lia.
Qed.

(** ** The redirect pairing of the older [OnUpdate] *)

(** A hostname without the prefix gets it prepended. *)
Lemma redirectName_bare hostname :
  HasPrefix hostname "www." = false ->
  Legacy.redirectName hostname = String.append "www." hostname.
Proof. unfold Legacy.redirectName. now intros ->. Qed.

(** With the prefix, the name is cut with [TrimLeft]: the four bytes go,
    and so does every [w] and [.] that follows them. *)
Lemma redirectName_www rest :
  Legacy.redirectName (String.append "www." rest) = TrimLeft rest "www.".
Proof. destruct rest; reflexivity. Qed.

(** The cut is the removal of the prefix when the rest starts with a
    byte other than [w] and [.]. *)
Lemma redirectName_www_exact c rest :
  in_cutset c "www." = false ->
  Legacy.redirectName (String.append "www." (String c rest)) = String c rest.
Proof. intros H. rewrite redirectName_www. cbn [TrimLeft]. now rewrite H. Qed.

(** A pairing, once made, stays: later servers with the same paired
    name are ignored. *)
Lemma OnUpdate_server_keeps all acc srv n h :
  Legacy.redirectServers acc !! n = Some h ->
  Legacy.redirectServers (Legacy.OnUpdate_server all acc srv) !! n = Some h.
Proof.
  intros Hn. unfold Legacy.OnUpdate_server. cbn [Legacy.redirectServers].
  destruct (RedirectFromToWWW srv); [|assumption].
  destruct (Legacy.redirectServers acc !! Legacy.redirectName (Hostname srv))
    eqn:E; [assumption|].
  destruct (Legacy.found all (Legacy.redirectName (Hostname srv)));
    [assumption|].
  rewrite lookup_insert_ne; [assumption|]. congruence.
Qed.

Lemma OnUpdate_servers_keep all servers acc n h :
  Legacy.redirectServers acc !! n = Some h ->
  Legacy.redirectServers (fold_left (Legacy.OnUpdate_server all) servers acc)
    !! n = Some h.
Proof.
  revert acc. induction servers as [|srv servers IH]; intros acc Hn;
    [assumption|].
  cbn [fold_left]. apply IH. now apply OnUpdate_server_keeps.
Qed.

Lemma OnUpdate_servers_pairings all servers acc :
  (forall srv, In srv servers -> In srv all) ->
  (forall n h, Legacy.redirectServers acc !! n = Some h -> pairing_ok all n h) ->
  forall n h,
    Legacy.redirectServers (fold_left (Legacy.OnUpdate_server all) servers acc)
      !! n = Some h ->
    pairing_ok all n h.
Proof.
  revert acc. induction servers as [|srv servers IH]; intros acc Hin Hacc;
    [exact Hacc|].
  cbn [fold_left]. apply IH; [intros s Hs; apply Hin; now right|].
  intros n h. unfold Legacy.OnUpdate_server. cbn [Legacy.redirectServers].
  destruct (RedirectFromToWWW srv) eqn:Ef; [|apply Hacc].
  destruct (Legacy.redirectServers acc !! Legacy.redirectName (Hostname srv))
    eqn:E; [apply Hacc|].
  destruct (Legacy.found all (Legacy.redirectName (Hostname srv))) eqn:Efound;
    [apply Hacc|].
  destruct (decide (Legacy.redirectName (Hostname srv) = n)) as [<- | Hne].
  - rewrite lookup_insert_eq. intros [= <-]. split; [assumption|].
    exists srv. repeat split; try assumption. apply Hin. now left.
  - rewrite lookup_insert_ne by assumption. apply Hacc.
Qed.

Lemma OnUpdate_pairings servers n h :
  Legacy.redirectServers (Legacy.OnUpdate_servers servers) !! n = Some h ->
  pairing_ok servers n h.
Proof.
  apply OnUpdate_servers_pairings; [auto|].
  intros n' h'. cbn [Legacy.redirectServers]. now rewrite lookup_empty.
Qed.

(** C6 at a failing input: the single server [www.web.com], flagged for
    the redirect.  Removing the leading [www.] gives [web.com]; the code
    pairs the server with [eb.com], and [web.com] gets no pairing. *)
Theorem OnUpdate_redirect_cuts_too_much :
  let servers := [mkServer "www.web.com" [] true] in
  let redirects := Legacy.redirectServers (Legacy.OnUpdate_servers servers) in
  TrimPrefix "www.web.com" "www." = "web.com"%string /\
  Legacy.redirectName "www.web.com" = "eb.com"%string /\
  redirects !! "eb.com" = Some "www.web.com"%string /\
  redirects !! "web.com" = None.
Proof. vm_compute. repeat split. Qed.

(** ** Validate, then apply *)

Lemma bind_run {A B} (m : M A) (k : A -> M B) w :
  (m ≫= k) w = k (m w).1 (m w).2.
Proof. unfold mbind, M_bind. now destruct (m w). Qed.

Lemma only_refl p ok w : only p ok w w.
Proof. exists []. split; [now rewrite app_nil_r | constructor]. Qed.

Lemma only_trans p ok w1 w2 w3 :
  only p ok w1 w2 -> only p ok w2 w3 -> only p ok w1 w3.
Proof.
  intros (e1 & H1 & F1) (e2 & H2 & F2). exists (e1 ++ e2). split.
  - now rewrite H2, H1, app_assoc.
  - now apply Forall_app.
Qed.

Lemma only_weaken p (ok ok' : event -> Prop) w w' :
  (forall ev, ok ev -> ok' ev) -> only p ok w w' -> only p ok' w w'.
Proof.
  intros Himp (evs & H & F). exists evs. split; [assumption|].
  eapply Forall_impl; [exact F|]. cbv beta. auto.
Qed.

Lemma untouched_refl p w : untouched p w w.
Proof. split; [reflexivity | apply only_refl]. Qed.

Lemma untouched_trans p w1 w2 w3 :
  untouched p w1 w2 -> untouched p w2 w3 -> untouched p w1 w3.
Proof.
  intros [H1 O1] [H2 O2]. split; [congruence | eapply only_trans; eassumption].
Qed.

Lemma untouched_only p ok w w' : untouched p w w' -> only p ok w w'.
Proof. intros [_ H]. eapply only_weaken; [|exact H]. intros ev []. Qed.

(** The system calls, one by one. *)
Lemma emit_untouched p ev w :
  ~ touches p ev -> only p (fun _ => False) w (emit ev w).2.
Proof.
  intros Hev. exists [ev]. split; [reflexivity|].
  constructor; [assumption | constructor].
Qed.

Lemma Exec_untouched p argv w : untouched p w (Exec argv w).2.
Proof. split; [reflexivity|]. apply emit_untouched. simpl. tauto. Qed.

Lemma Remove_untouched p name w :
  name <> p -> untouched p w (Remove name w).2.
Proof.
  intros Hne. unfold Remove. rewrite bind_run. split.
  - cbn. now rewrite lookup_delete_ne.
  - exists [EvRemove name]. split; [reflexivity|].
    constructor; [simpl; tauto | constructor].
Qed.

Lemma WriteFile_untouched os p name data w :
  name <> p -> untouched p w (WriteFile os name data w).2.
Proof.
  intros Hne. unfold WriteFile. rewrite !bind_run. cbn [ask fst snd].
  split.
  - destruct (writeOutcome os w name data); rewrite ?bind_run; cbn;
      rewrite ?lookup_insert_ne by assumption; reflexivity.
  - exists [EvWriteFile name data]. split.
    + destruct (writeOutcome os w name data); rewrite ?bind_run; reflexivity.
    + constructor; [simpl; tauto | constructor].
Qed.

Lemma WriteFile_only os p data w :
  only p (fun ev => ev = EvWriteFile p data) w (WriteFile os p data w).2.
Proof.
  unfold WriteFile. rewrite !bind_run. cbn [ask fst snd].
  exists [EvWriteFile p data]. split.
  - destruct (writeOutcome os w p data); rewrite ?bind_run; reflexivity.
  - constructor; [reflexivity | constructor].
Qed.

Lemma CreateTemp_name os dir pattern w p :
  (CreateTemp os dir pattern w).1 = inl p ->
  exists d rnd, p = temp_name d pattern rnd.
Proof.
  unfold CreateTemp. rewrite !bind_run. cbn [ask fst snd].
  destruct (createTempFails os w _); [discriminate|].
  rewrite !bind_run. cbn. intros [= <-]. eauto.
Qed.

Lemma CreateTemp_untouched os p dir pattern w :
  (forall d rnd, temp_name d pattern rnd <> p) ->
  untouched p w (CreateTemp os dir pattern w).2.
Proof.
  intros Hne. unfold CreateTemp. rewrite !bind_run. cbn [ask fst snd].
  destruct (createTempFails os w _); [apply untouched_refl|].
  rewrite !bind_run. split.
  - cbn. now rewrite lookup_insert_ne.
  - eexists [_]. split; [reflexivity|].
    constructor; [simpl; apply Hne | constructor].
Qed.

(** No temporary file is the active configuration file: the patterns
    contain a dash, the active path does not. *)
Lemma in_cutset_append c s1 s2 :
  in_cutset c (String.append s1 s2) = in_cutset c s1 || in_cutset c s2.
Proof.
  induction s1 as [|d s1 IH]; [reflexivity|].
  change (String.append (String d s1) s2)
    with (String d (String.append s1 s2)).
  cbn [in_cutset]. destruct (Ascii.eqb c d); [reflexivity | exact IH].
Qed.

Lemma temp_name_not_cfgPath d pattern rnd :
  in_cutset "-" pattern = true -> temp_name d pattern rnd <> cfgPath.
Proof.
  intros Hp Heq.
  assert (H : in_cutset "-" (temp_name d pattern rnd) = true).
  { unfold temp_name. rewrite !in_cutset_append, Hp.
    now rewrite orb_true_r. }
  rewrite Heq in H. discriminate H.
Qed.

Lemma untouched_mret {A} p (a : A) w w' :
  untouched p w w' -> untouched p w ((mret a : M A) w').2.
Proof. auto. Qed.

(** A step that leaves the file alone, followed by the rest. *)
Lemma untouched_bind {A B} p (m : M A) (k : A -> M B) w w' :
  untouched p w (m w').2 ->
  (forall w1, untouched p w w1 -> untouched p w (k (m w').1 w1).2) ->
  untouched p w ((m ≫= k) w').2.
Proof. intros Hm Hk. rewrite bind_run. now apply Hk. Qed.

(** Creating a temporary file and working on it leaves the active file
    alone, as long as the work does so for every other file name. *)
Lemma with_temp_untouched os dir pattern (k : string -> M (option error)) w w' :
  in_cutset "-" pattern = true ->
  untouched cfgPath w w' ->
  (forall tmpfile w1, tmpfile <> cfgPath -> untouched cfgPath w w1 ->
                      untouched cfgPath w (k tmpfile w1).2) ->
  untouched cfgPath w
    ((CreateTemp os dir pattern ≫= fun r =>
        match r with
        | inr err => mret (Some err)
        | inl tmpfile => k tmpfile
        end) w').2.
Proof.
  intros Hp Hw Hk. apply untouched_bind.
  - eapply untouched_trans; [exact Hw|]. apply CreateTemp_untouched.
    intros d rnd. now apply temp_name_not_cfgPath.
  - intros w1 Hw1.
    destruct (CreateTemp os dir pattern w').1 as [tmpfile | err] eqn:E;
      [|exact Hw1].
    apply Hk; [|exact Hw1].
    destruct (CreateTemp_name _ _ _ _ _ E) as (d & rnd & ->).
    now apply temp_name_not_cfgPath.
Qed.

(** Writing a file other than the active one and going on. *)
Lemma write_then_untouched os name data (k : M (option error)) w w' :
  name <> cfgPath ->
  untouched cfgPath w w' ->
  (forall w1, untouched cfgPath w w1 -> untouched cfgPath w (k w1).2) ->
  untouched cfgPath w
    ((WriteFile os name data ≫= fun err =>
        match err with
        | Some e => mret (Some e)
        | None => k
        end) w').2.
Proof.
  intros Hne Hw Hk. apply untouched_bind.
  - eapply untouched_trans; [exact Hw|]. now apply WriteFile_untouched.
  - intros w1 Hw1. destruct (WriteFile os name data w').1; [exact Hw1|].
    now apply Hk.
Qed.

(** Testing a file other than the active one. *)
Lemma test_then_untouched os binary tmpfile w w' :
  tmpfile <> cfgPath ->
  untouched cfgPath w w' ->
  untouched cfgPath w
    ((ask (fun w => nginxTest os w tmpfile) ≫= fun out =>
        Exec [binary; "-t"; "-c"; tmpfile]%string;;
        match out with
        | Some o => mret (Some (ErrNginxTest o))
        | None => Remove tmpfile;; mret None
        end) w').2.
Proof.
  intros Hne Hw. rewrite !bind_run. cbn [ask fst snd].
  assert (H1 : untouched cfgPath w
                 (Exec [binary; "-t"; "-c"; tmpfile]%string w').2)
    by (eapply untouched_trans; [exact Hw | apply Exec_untouched]).
  destruct (nginxTest os w' tmpfile); [exact H1|].
  rewrite bind_run. eapply untouched_trans; [exact H1|].
  now apply Remove_untouched.
Qed.

Lemma Legacy_testTemplate_untouched os binary cfg w :
  untouched cfgPath w (Legacy.testTemplate os binary cfg w).2.
Proof.
  unfold Legacy.testTemplate.
  destruct (Z.of_nat (length cfg) =? 0); [apply untouched_refl|].
  apply with_temp_untouched; [reflexivity | apply untouched_refl|].
  intros tmpfile w1 Hne Hw1.
  apply write_then_untouched; [assumption | assumption |].
  intros w2 Hw2. now apply test_then_untouched.
Qed.

Lemma Current_testTemplate_untouched os binary cfg w :
  untouched cfgPath w (Current.testTemplate os binary cfg w).2.
Proof.
  unfold Current.testTemplate.
  destruct (Z.of_nat (length cfg) =? 0); [apply untouched_refl|].
  apply with_temp_untouched; [reflexivity | apply untouched_refl|].
  intros tmpfile w1 Hne Hw1.
  apply write_then_untouched; [assumption | assumption |].
  intros w2 Hw2. now apply test_then_untouched.
Qed.

Lemma Legacy_diff_untouched os content w :
  untouched cfgPath w (Legacy.OnUpdate_diff os content w).2.
Proof.
  unfold Legacy.OnUpdate_diff, ReadFile. rewrite bind_run. cbn [ask fst snd].
  destruct (bytes_Equal _ content); [apply untouched_refl|].
  apply with_temp_untouched; [reflexivity | apply untouched_refl|].
  intros tmpfile w1 Hne Hw1.
  apply write_then_untouched; [assumption | assumption |].
  intros w2 Hw2. rewrite !bind_run.
  eapply untouched_trans; [exact Hw2|].
  eapply untouched_trans; [apply Exec_untouched|].
  now apply Remove_untouched.
Qed.

Lemma Current_diff_untouched os content w :
  untouched cfgPath w (Current.OnUpdate_diff os content w).2.
Proof.
  unfold Current.OnUpdate_diff, ReadFile. rewrite bind_run. cbn [ask fst snd].
  destruct (bytes_Equal _ content); [apply untouched_refl|].
  apply with_temp_untouched; [reflexivity | apply untouched_refl|].
  intros tmpfile w1 Hne Hw1.
  apply write_then_untouched; [assumption | assumption |].
  intros w2 Hw2. rewrite !bind_run.
  eapply untouched_trans; [exact Hw2|].
  eapply untouched_trans; [apply Exec_untouched|].
  now apply Remove_untouched.
Qed.

Lemma createOpentracingCfg_untouched os expanded w :
  untouched cfgPath w (Current.createOpentracingCfg os expanded w).2.
Proof.
  unfold Current.createOpentracingCfg.
  destruct expanded as [text | err]; [|apply untouched_refl].
  apply WriteFile_untouched. discriminate.
Qed.

(** What follows a passed test: the diff for the log, the write of the
    active file, the reload.  The only event on the active file is the
    write of the tested content. *)
Lemma apply_tail os content (diff k : M (option error)) w :
  (forall w0, untouched cfgPath w0 (diff w0).2) ->
  (forall w0, untouched cfgPath w0 (k w0).2) ->
  only cfgPath (fun ev => ev = EvWriteFile cfgPath content) w
    ((diff ≫= fun err =>
        match err with
        | Some e => mret (Some e)
        | None =>
            WriteFile os cfgPath content ≫= fun err =>
              match err with
              | Some e => mret (Some e)
              | None => k
              end
        end) w).2.
Proof.
  intros Hdiff Hk. rewrite bind_run.
  assert (H1 : only cfgPath (fun ev => ev = EvWriteFile cfgPath content)
                 w (diff w).2) by apply untouched_only, Hdiff.
  destruct (diff w).1; [exact H1|].
  rewrite bind_run.
  assert (H2 : only cfgPath (fun ev => ev = EvWriteFile cfgPath content)
                 w (WriteFile os cfgPath content (diff w).2).2)
    by (eapply only_trans; [exact H1 | apply WriteFile_only]).
  destruct (WriteFile os cfgPath content (diff w).2).1; [exact H2|].
  eapply only_trans; [exact H2|]. apply untouched_only, Hk.
Qed.

Lemma reload_untouched os argv w :
  untouched cfgPath w
    ((ask (nginxReload os) ≫= fun out =>
        Exec argv;;
        match out with
        | Some o => mret (Some (ErrReload o))
        | None => mret None
        end) w).2.
Proof.
  rewrite !bind_run. cbn [ask fst snd].
  destruct (nginxReload os w); apply Exec_untouched.
Qed.

(** The older [OnUpdate]: a failed test is the result, with the active
    file untouched; the active file is only ever written with the
    content at hand, after its test has passed. *)
Lemma Legacy_OnUpdate_validates os binary content w :
  let t := Legacy.testTemplate os binary content w in
  let r := Legacy.OnUpdate os binary (inl content) w in
  (forall e, t.1 = Some e ->
             r.1 = Some e /\ r.2 = t.2 /\ untouched cfgPath w r.2) /\
  only cfgPath (fun ev => ev = EvWriteFile cfgPath content /\ t.1 = None)
       w r.2.
Proof.
  cbv zeta. unfold Legacy.OnUpdate. rewrite bind_run.
  pose proof (Legacy_testTemplate_untouched os binary content w) as Ht.
  destruct (Legacy.testTemplate os binary content w).1 as [e|] eqn:E.
  - split.
    + intros e' [= <-]. repeat split; apply Ht.
    + now apply untouched_only.
  - split; [discriminate|].
    eapply only_trans; [apply untouched_only, Ht|].
    eapply only_weaken; [|apply apply_tail].
    + intros ev ->. now split.
    + intros w0. destruct (verbose os);
        [apply Legacy_diff_untouched | apply untouched_refl].
    + intros w0. apply reload_untouched.
Qed.

(** The newer [OnUpdate], where the tracing configuration is written
    first. *)
Lemma Current_OnUpdate_validates os binary grpc content expanded w :
  let pre := Current.createOpentracingCfg os expanded w in
  let t := Current.testTemplate os binary content pre.2 in
  let r := Current.OnUpdate os binary grpc (inl content) expanded w in
  (pre.1 = None -> forall e, t.1 = Some e ->
     r.1 = Some e /\ r.2 = t.2 /\ untouched cfgPath w r.2) /\
  only cfgPath
       (fun ev => ev = EvWriteFile cfgPath content /\
                  pre.1 = None /\ t.1 = None)
       w r.2.
Proof.
  cbv zeta. unfold Current.OnUpdate. rewrite bind_run.
  pose proof (createOpentracingCfg_untouched os expanded w) as Hp.
  destruct (Current.createOpentracingCfg os expanded w).1 as [e0|] eqn:E0.
  { split; [discriminate | now apply untouched_only]. }
  rewrite bind_run.
  pose proof (Current_testTemplate_untouched os binary content
                (Current.createOpentracingCfg os expanded w).2) as Ht.
  assert (Hwt : untouched cfgPath w
                  (Current.testTemplate os binary content
                     (Current.createOpentracingCfg os expanded w).2).2)
    by (eapply untouched_trans; eassumption).
  destruct (Current.testTemplate os binary content _).1 as [e|] eqn:E.
  - split.
    + intros _ e' [= <-]. repeat split; apply Hwt.
    + now apply untouched_only.
  - split; [discriminate|].
    eapply only_trans; [apply untouched_only, Hwt|].
    eapply only_weaken; [|apply apply_tail].
    + intros ev ->. now repeat split.
    + intros w0. destruct (verbose os);
        [apply Current_diff_untouched | apply untouched_refl].
    + intros w0. destruct grpc; [apply untouched_refl|].
      apply reload_untouched.
Qed.

(** C1: in both generations, when [testTemplate] fails on a candidate,
    [OnUpdate] returns that error at once and the active configuration
    file keeps its bytes, no call having created, written or removed it;
    and whenever a run of [OnUpdate] touches the active file at all, it
    does so by writing the candidate, whose test has passed before. *)
Theorem OnUpdate_validates_before_write os binary content :
  (forall w,
     let t := Legacy.testTemplate os binary content w in
     let r := Legacy.OnUpdate os binary (inl content) w in
     (forall e, t.1 = Some e ->
        r.1 = Some e /\ files r.2 !! cfgPath = files w !! cfgPath /\
        only cfgPath (fun _ => False) w r.2) /\
     only cfgPath (fun ev => ev = EvWriteFile cfgPath content /\ t.1 = None)
          w r.2) /\
  (forall grpc expanded w,
     let pre := Current.createOpentracingCfg os expanded w in
     let t := Current.testTemplate os binary content pre.2 in
     let r := Current.OnUpdate os binary grpc (inl content) expanded w in
     (pre.1 = None -> forall e, t.1 = Some e ->
        r.1 = Some e /\ files r.2 !! cfgPath = files w !! cfgPath /\
        only cfgPath (fun _ => False) w r.2) /\
     only cfgPath
          (fun ev => ev = EvWriteFile cfgPath content /\
                     pre.1 = None /\ t.1 = None)
          w r.2).
Proof.
  split.
  - intros w. cbv zeta.
    destruct (Legacy_OnUpdate_validates os binary content w) as [H1 H2].
    split; [|exact H2].
    intros e He. destruct (H1 e He) as (Hr & _ & Hf & Ho). auto.
  - intros grpc expanded w. cbv zeta.
    destruct (Current_OnUpdate_validates os binary grpc content expanded w)
      as [H1 H2].
    split; [|exact H2].
    intros Hp e He. destruct (H1 Hp e He) as (Hr & _ & Hf & Ho). auto.
Qed.

Lemma OnUpdate_validates_before_write_witness :
  let pre :=
    Current.createOpentracingCfg sample_os (inl []) sample_world in
  let t := Current.testTemplate sample_os "nginx" sample_candidate pre.2 in
  let r := Current.OnUpdate sample_os "nginx" false (inl sample_candidate)
                            (inl []) sample_world in
  pre.1 = None /\
  t.1 = Some (ErrNginxTest "nginx: [emerg] unexpected end of file") /\
  r.1 = Some (ErrNginxTest "nginx: [emerg] unexpected end of file") /\
  files r.2 !! cfgPath = files sample_world !! cfgPath /\
  only cfgPath (fun _ => False) sample_world r.2.
Proof.
  cbv zeta.
  assert (Hp : (Current.createOpentracingCfg sample_os (inl [])
                  sample_world).1 = None) by (vm_compute; reflexivity).
  assert (Ht : (Current.testTemplate sample_os "nginx" sample_candidate
                  (Current.createOpentracingCfg sample_os (inl [])
                     sample_world).2).1
               = Some (ErrNginxTest "nginx: [emerg] unexpected end of file"))
    by (vm_compute; reflexivity).
  split; [exact Hp|]. split; [exact Ht|].
  exact (proj1 (proj2 (OnUpdate_validates_before_write
                         sample_os "nginx" sample_candidate)
                  false (inl []) sample_world) Hp _ Ht).
Defined.

(** * Further properties *)

(** ** The integer helpers *)

Lemma nextPowerOf2_bounds v :
  1 < v <= 2 ^ 32 -> v <= nextPowerOf2 v < 2 * v.
Proof.
  intros Hv. rewrite nextPowerOf2_log2_up by lia.
  destruct (Z.log2_up_spec v ltac:(lia)) as [Hlo Hhi].
  split; [exact Hhi|].
  assert (0 < Z.log2_up v) by (apply Z.log2_up_pos; lia).
  replace (Z.log2_up v) with (Z.succ (Z.pred (Z.log2_up v))) by lia.
  rewrite Z.pow_succ_r by lia. lia.
Qed.

(** X1: on [[1, 2^32]] the result of [nextPowerOf2] is a power of two,
    and the least one that is not below the argument. *)
Theorem nextPowerOf2_least_power n :
  1 <= n <= 2 ^ 32 ->
  exists k, 0 <= k <= 32 /\ nextPowerOf2 n = 2 ^ k /\ n <= 2 ^ k /\
            forall j, 0 <= j -> n <= 2 ^ j -> k <= j.
Proof.
  intros Hn. exists (Z.log2_up n).
  pose proof (log2_up_small n Hn) as HL.
  repeat split; try lia.
  - now apply nextPowerOf2_log2_up.
  - apply Z.log2_log2_up_spec. lia.
  - intros j Hj Hle. apply Z.log2_up_le_pow2; lia.
Qed.

Lemma nextPowerOf2_least_power_witness :
  1 <= 19 <= 2 ^ 32 /\
  exists k, 0 <= k <= 32 /\ nextPowerOf2 19 = 2 ^ k /\ 19 <= 2 ^ k /\
            forall j, 0 <= j -> 19 <= 2 ^ j -> k <= j.
Proof. split; [lia | apply (nextPowerOf2_least_power 19); lia]. Defined.

Lemma raw_size_bounds longest :
  0 <= longest ->
  longest + 18 <= 16 + 8 * ((longest + 9) / 8) <= longest + 25.
Proof.
  intros H. pose proof (Z.div_mod (longest + 9) 8 ltac:(lia)).
  pose proof (Z.mod_pos_bound (longest + 9) 8 ltac:(lia)). lia.
Qed.

(** X2: for names of up to [2^32 - 18] bytes the bucket computed by
    [nginxHashBucketSize] has room for the name, is a power of two of at
    least 32 bytes, and is less than twice the 25 bytes more than the
    name that alignment can ask for. *)
Theorem nginxHashBucketSize_fits longest :
  0 <= longest <= 2 ^ 32 - 18 ->
  fits_bucket longest (nginxHashBucketSize longest) /\
  32 <= nginxHashBucketSize longest < 2 * (longest + 25) /\
  exists k, nginxHashBucketSize longest = 2 ^ k.
Proof.
  intros Hl. rewrite nginxHashBucketSize_raw.
  pose proof (raw_size_bounds longest ltac:(lia)) as Hraw.
  assert (Hup : 16 + 8 * ((longest + 9) / 8) <= 2 ^ 32).
  { assert ((longest + 9) / 8 <= (2 ^ 32 - 9) / 8)
      by (apply Z.div_le_mono; lia).
    change ((2 ^ 32 - 9) / 8) with (2 ^ 29 - 2) in *. lia. }
  pose proof (nextPowerOf2_bounds (16 + 8 * ((longest + 9) / 8))
                ltac:(lia)) as Hb.
  unfold fits_bucket, wordSize. repeat split; try lia.
  - assert (1 <= (longest + 9) / 8) by (apply Z.div_le_lower_bound; lia).
    assert (nextPowerOf2 24 <= nextPowerOf2 (16 + 8 * ((longest + 9) / 8)))
      by (apply nextPowerOf2_mono; lia).
    change (nextPowerOf2 24) with 32 in *. lia.
  - exists (Z.log2_up (16 + 8 * ((longest + 9) / 8))).
    apply nextPowerOf2_log2_up. lia.
Qed.

Lemma nginxHashBucketSize_fits_witness :
  0 <= 15 <= 2 ^ 32 - 18 /\
  fits_bucket 15 (nginxHashBucketSize 15) /\
  32 <= nginxHashBucketSize 15 < 2 * (15 + 25) /\
  exists k, nginxHashBucketSize 15 = 2 ^ k.
Proof. split; [lia | apply (nginxHashBucketSize_fits 15); lia]. Defined.

(** ** The hash sizes once more *)

Lemma renderTemplate_raises_bucket_size_witness :
  let cfg := mkConfiguration 16 0 0 0 in
  let servers := [mkServer "app.example.com" [] false] in
  ServerNameHashBucketSize cfg
    < nginxHashBucketSize (fst (Current.renderTemplate_servers servers)) /\
  ServerNameHashBucketSize (Current.renderTemplate 1024 cfg servers)
    = nginxHashBucketSize (fst (Current.renderTemplate_servers servers)).
Proof.
  cbv zeta.
  assert (H : ServerNameHashBucketSize (mkConfiguration 16 0 0 0)
              < nginxHashBucketSize
                  (fst (Current.renderTemplate_servers
                          [mkServer "app.example.com" [] false])))
    by (vm_compute; reflexivity).
  split; [exact H|].
  exact (proj1 (renderTemplate_raises_bucket_size 1024
                  (mkConfiguration 16 0 0 0)
                  [mkServer "app.example.com" [] false]) H).
Defined.

Lemma short_hostname_example :
  Forall short_hostname [mkServer "example.com" ["alias.example.com"] true].
Proof.
  constructor; [|constructor].
  unfold short_hostname, GoInt.int_max. vm_compute. discriminate.
Defined.

Lemma renderTemplate_longest_witness :
  Forall short_hostname [mkServer "example.com" ["alias.example.com"] true] /\
  fst (Current.renderTemplate_servers
         [mkServer "example.com" ["alias.example.com"] true])
  = longest_spec [mkServer "example.com" ["alias.example.com"] true].
Proof.
  split; [exact short_hostname_example|].
  apply (renderTemplate_longest
           [mkServer "example.com" ["alias.example.com"] true]).
  exact short_hostname_example.
Defined.

Lemma fold_max_In x l : In x l -> x <= fold_right Z.max 0 l.
Proof.
  induction l as [|y l IH]; intros Hin; [destruct Hin|].
  cbn [fold_right]. destruct Hin as [-> | Hin]; [lia|].
  specialize (IH Hin). lia.
Qed.

Lemma longest_spec_In servers srv l :
  In srv servers -> In l (name_lengths srv) -> l <= longest_spec servers.
Proof.
  intros Hs Hl. unfold longest_spec. apply fold_max_In.
  apply in_concat. exists (name_lengths srv). split; [|assumption].
  now apply in_map.
Qed.

Lemma longest_spec_nonneg servers : 0 <= longest_spec servers.
Proof. apply fold_max_nonneg. Qed.

(** X5: after [renderTemplate] the bucket size has room for every name
    of the intent: each hostname, with the four bytes of [www.] when the
    redirect is asked for, and each alias (names of up to [2^32 - 18]
    bytes). *)
Theorem renderTemplate_bucket_fits rlimit cfg servers :
  Forall short_hostname servers ->
  longest_spec servers <= 2 ^ 32 - 18 ->
  forall srv l, In srv servers -> In l (name_lengths srv) ->
    fits_bucket l
      (ServerNameHashBucketSize (Current.renderTemplate rlimit cfg servers)).
Proof.
  intros Hs Hl srv l Hin Hlen.
  rewrite renderTemplate_ServerNameHashBucketSize.
  unfold Current.renderTemplate_servers.
  rewrite renderTemplate_servers_longest by (assumption || lia).
  pose proof (longest_spec_nonneg servers) as H0.
  pose proof (longest_spec_In servers srv l Hin Hlen) as Hle.
  replace (Z.max 0 (longest_spec servers)) with (longest_spec servers) by lia.
  pose proof (raw_size_bounds (longest_spec servers) H0) as Hraw.
  assert (Hup : 16 + 8 * ((longest_spec servers + 9) / 8) <= 2 ^ 32).
  { assert ((longest_spec servers + 9) / 8 <= (2 ^ 32 - 9) / 8)
      by (apply Z.div_le_mono; lia).
    change ((2 ^ 32 - 9) / 8) with (2 ^ 29 - 2) in *. lia. }
  pose proof (nextPowerOf2_bounds
                (16 + 8 * ((longest_spec servers + 9) / 8)) ltac:(lia)).
  rewrite nginxHashBucketSize_raw.
  unfold fits_bucket, wordSize. lia.
Qed.

Lemma renderTemplate_bucket_fits_witness :
  let servers := [mkServer "example.com" ["alias.example.com"] true] in
  Forall short_hostname servers /\
  longest_spec servers <= 2 ^ 32 - 18 /\
  In (mkServer "example.com" ["alias.example.com"] true) servers /\
  In 17 (name_lengths (mkServer "example.com" ["alias.example.com"] true)) /\
  fits_bucket 17
    (ServerNameHashBucketSize
       (Current.renderTemplate 1024 (mkConfiguration 0 0 0 0) servers)).
Proof.
  cbv zeta.
  assert (H1 : longest_spec
                 [mkServer "example.com" ["alias.example.com"] true]
               <= 2 ^ 32 - 18) by (vm_compute; discriminate).
  assert (H2 : In (mkServer "example.com" ["alias.example.com"] true)
                  [mkServer "example.com" ["alias.example.com"] true])
    by (left; reflexivity).
  assert (H3 : In 17 (name_lengths
                        (mkServer "example.com" ["alias.example.com"] true)))
    by (right; left; reflexivity).
  split; [exact short_hostname_example|].
  split; [exact H1|]. split; [exact H2|]. split; [exact H3|].
  exact (renderTemplate_bucket_fits 1024 (mkConfiguration 0 0 0 0) _
           short_hostname_example H1 _ _ H2 H3).
Defined.

Lemma www_bytes_nonneg servers : 0 <= www_bytes servers.
Proof.
  unfold www_bytes. induction servers as [|s l IH]; cbn [map fold_right];
    [lia|].
  unfold www_length at 1. pose proof (len_nonneg (Hostname s)).
  destruct (RedirectFromToWWW s); lia.
Qed.

(** X6: after [renderTemplate] the maximum size of the hash table is not
    below the bytes of the hostnames, [www.] padding included (for up
    to [2^32] bytes). *)
Theorem renderTemplate_max_size_covers rlimit cfg servers :
  www_bytes servers <= 2 ^ 32 ->
  www_bytes servers
  <= ServerNameHashMaxSize (Current.renderTemplate rlimit cfg servers).
Proof.
  intros Hb. rewrite renderTemplate_ServerNameHashMaxSize.
  unfold Current.renderTemplate_servers.
  destruct (renderTemplate_servers_bytes servers 0 0) as [k ->].
  rewrite nextPowerOf2_shift. cbn [Z.add].
  pose proof (www_bytes_nonneg servers) as H0.
  replace (0 + www_bytes servers) with (www_bytes servers) by lia.
  destruct (Z.eq_dec (www_bytes servers) 0) as [E | Hne];
    [rewrite E; change (nextPowerOf2 0) with 0; lia|].
  destruct (Z.eq_dec (www_bytes servers) 1) as [E | Hne1];
    [rewrite E; change (nextPowerOf2 1) with 1; lia|].
  pose proof (nextPowerOf2_bounds (www_bytes servers) ltac:(lia)). lia.
Qed.

Lemma renderTemplate_max_size_covers_witness :
  let servers := [mkServer "app.example.com" [] true] in
  www_bytes servers <= 2 ^ 32 /\
  www_bytes servers
  <= ServerNameHashMaxSize
       (Current.renderTemplate 1024 (mkConfiguration 0 0 0 0) servers).
Proof.
  cbv zeta.
  assert (H : www_bytes [mkServer "app.example.com" [] true] <= 2 ^ 32)
    by (vm_compute; discriminate).
  split; [exact H|].
  exact (renderTemplate_max_size_covers 1024 (mkConfiguration 0 0 0 0) _ H).
Defined.

Lemma nginxHashBucketSize_lower l :
  0 <= l <= 2 ^ 32 - 18 -> l + 18 <= nginxHashBucketSize l.
Proof.
  intros Hl. rewrite nginxHashBucketSize_raw.
  pose proof (raw_size_bounds l ltac:(lia)) as Hraw.
  assert (Hup : 16 + 8 * ((l + 9) / 8) <= 2 ^ 32).
  { assert ((l + 9) / 8 <= (2 ^ 32 - 9) / 8) by (apply Z.div_le_mono; lia).
    change ((2 ^ 32 - 9) / 8) with (2 ^ 29 - 2) in *. lia. }
  pose proof (nextPowerOf2_bounds (16 + 8 * ((l + 9) / 8)) ltac:(lia)). lia.
Qed.

(** On servers without flag and without aliases the two loops walk in
    step. *)
Lemma loops_agree_on_plain all servers :
  Forall plain_server servers ->
  forall acc,
    fold_left Current.renderTemplate_server servers
              (Legacy.longestName acc, Legacy.serverNameBytes acc)
    = (Legacy.longestName
         (fold_left (Legacy.OnUpdate_server all) servers acc),
       Legacy.serverNameBytes
         (fold_left (Legacy.OnUpdate_server all) servers acc)).
Proof.
  induction 1 as [|srv servers [Hflag Hal] _ IH]; intros acc; [reflexivity|].
  cbn [fold_left]. rewrite <- IH. f_equal.
  unfold Current.renderTemplate_server, Legacy.OnUpdate_server.
  rewrite Hflag, Hal. reflexivity.
Qed.

(** X7: on an intent whose servers have neither the redirect flag nor
    aliases, and with no bucket size configured, the older [OnUpdate]
    and [renderTemplate] arrive at the same two hash table sizes
    (hostnames of up to [2^32 - 18] bytes). *)
Theorem generations_agree_on_plain rlimit cfg servers :
  Forall plain_server servers ->
  Forall (fun srv => len (Hostname srv) <= 2 ^ 32 - 18) servers ->
  ServerNameHashBucketSize cfg = 0 ->
  ServerNameHashBucketSize (Legacy.OnUpdate_hashSizes cfg servers)
    = ServerNameHashBucketSize (Current.renderTemplate rlimit cfg servers) /\
  ServerNameHashMaxSize (Legacy.OnUpdate_hashSizes cfg servers)
    = ServerNameHashMaxSize (Current.renderTemplate rlimit cfg servers).
Proof.
  intros Hplain Hlen Hcfg.
  rewrite OnUpdate_ServerNameHashBucketSize, OnUpdate_ServerNameHashMaxSize.
  rewrite renderTemplate_ServerNameHashBucketSize,
    renderTemplate_ServerNameHashMaxSize.
  unfold Current.renderTemplate_servers, Legacy.OnUpdate_servers.
  change (0, 0) with
    (Legacy.longestName (Legacy.mkSizes 0 0 ∅),
     Legacy.serverNameBytes (Legacy.mkSizes 0 0 ∅)).
  rewrite (loops_agree_on_plain servers servers Hplain). cbn [fst snd].
  split; [|reflexivity].
  rewrite Hcfg. cbn [Z.eqb].
  fold (Legacy.OnUpdate_servers servers). rewrite OnUpdate_longest.
  assert (Hm : 0 <= fold_right Z.max 0
                      (map (fun s => len (Hostname s)) servers)
               <= 2 ^ 32 - 18).
  { split; [apply fold_max_nonneg|].
    clear -Hlen. induction Hlen as [|s l Hs _ IH]; cbn [map fold_right]; lia. }
  pose proof (nginxHashBucketSize_lower _ Hm). lia.
Qed.

Lemma generations_agree_on_plain_witness :
  let cfg := mkConfiguration 0 512 0 0 in
  let servers := [mkServer "app.example.com" [] false;
                  mkServer "example.org" [] false] in
  Forall plain_server servers /\
  Forall (fun srv => len (Hostname srv) <= 2 ^ 32 - 18) servers /\
  ServerNameHashBucketSize cfg = 0 /\
  ServerNameHashBucketSize (Legacy.OnUpdate_hashSizes cfg servers)
    = ServerNameHashBucketSize (Current.renderTemplate 4096 cfg servers) /\
  ServerNameHashMaxSize (Legacy.OnUpdate_hashSizes cfg servers)
    = ServerNameHashMaxSize (Current.renderTemplate 4096 cfg servers).
Proof.
  cbv zeta.
  assert (H1 : Forall plain_server
                 [mkServer "app.example.com" [] false;
                  mkServer "example.org" [] false])
    by (repeat constructor).
  assert (H2 : Forall (fun srv => len (Hostname srv) <= 2 ^ 32 - 18)
                 [mkServer "app.example.com" [] false;
                  mkServer "example.org" [] false])
    by (repeat constructor; vm_compute; discriminate).
  split; [exact H1|]. split; [exact H2|]. split; [reflexivity|].
  exact (generations_agree_on_plain 4096 (mkConfiguration 0 512 0 0) _
           H1 H2 eq_refl).
Defined.

(** ** The worker limits once more *)

(** X8: [renderTemplate] keeps a configured limit of open files and
    configured worker connections as they are; a derived limit of open
    files is never below 1024, whatever the descriptor limit reads,
    also when it reads as a negative number. *)
Theorem renderTemplate_keeps_configured_limits rlimit cfg servers :
  let cfg' := Current.renderTemplate rlimit cfg servers in
  (MaxWorkerOpenFiles cfg <> 0 ->
   MaxWorkerOpenFiles cfg' = MaxWorkerOpenFiles cfg) /\
  (MaxWorkerConnections cfg <> 0 ->
   MaxWorkerConnections cfg' = MaxWorkerConnections cfg) /\
  (MaxWorkerOpenFiles cfg = 0 -> 1024 <= MaxWorkerOpenFiles cfg').
Proof.
  cbv zeta. rewrite renderTemplate_MaxWorkerConnections.
  rewrite renderTemplate_MaxWorkerOpenFiles.
  repeat split.
  - intros H. now destruct (Z.eqb_spec (MaxWorkerOpenFiles cfg) 0).
  - intros H. now destruct (Z.eqb_spec (MaxWorkerConnections cfg) 0).
  - intros ->. cbn [Z.eqb]. lia.
Qed.

Lemma renderTemplate_keeps_configured_limits_witness :
  MaxWorkerOpenFiles (mkConfiguration 0 0 0 0) = 0 /\
  1024 <= MaxWorkerOpenFiles
            (Current.renderTemplate (-1) (mkConfiguration 0 0 0 0) []).
Proof.
  split; [reflexivity|].
  exact (proj2 (proj2 (renderTemplate_keeps_configured_limits
                         (-1) (mkConfiguration 0 0 0 0) [])) eq_refl).
Defined.

(** X9: the older [OnUpdate] stops with a division by zero exactly when
    the configured number of worker processes reads as 0; a number that
    cannot be read counts as one worker; and the limit of open files it
    arrives at is never below 1024. *)
Theorem OnUpdate_maxOpenFiles_cases fileMax atoi :
  (Legacy.OnUpdate_maxOpenFiles fileMax atoi = None <-> atoi = Some 0) /\
  Legacy.OnUpdate_maxOpenFiles fileMax None
    = Legacy.OnUpdate_maxOpenFiles fileMax (Some 1) /\
  (forall v, Legacy.OnUpdate_maxOpenFiles fileMax atoi = Some v -> 1024 <= v).
Proof.
  unfold Legacy.OnUpdate_maxOpenFiles. repeat split.
  - destruct atoi as [n|]; [|discriminate].
    destruct (Z.eqb_spec n 0); [now subst | discriminate].
  - intros ->. reflexivity.
  - intros v.
    destruct (match atoi with Some n => n | None => 1 end =? 0);
      [discriminate|].
    intros [= <-].
    destruct (Z.ltb_spec (GoInt.sub (GoInt.quo fileMax
                (match atoi with Some n => n | None => 1 end)) 1024) 1024);
      lia.
Qed.

Lemma OnUpdate_maxOpenFiles_cases_witness :
  Legacy.OnUpdate_maxOpenFiles 100000 (Some 4) = Some 23976 /\
  1024 <= 23976.
Proof.
  assert (H : Legacy.OnUpdate_maxOpenFiles 100000 (Some 4) = Some 23976)
    by reflexivity.
  split; [exact H|].
  exact (proj2 (proj2 (OnUpdate_maxOpenFiles_cases 100000 (Some 4))) _ H).
Defined.

(** ** The redirect map, entry by entry *)

Lemma OnUpdate_servers_redirects all servers :
  forall acc n,
    Legacy.redirectServers
      (fold_left (Legacy.OnUpdate_server all) servers acc) !! n
    = match Legacy.redirectServers acc !! n with
      | Some h => Some h
      | None =>
          if Legacy.found all n then None
          else Hostname <$> first_flagged servers n
      end.
Proof.
  induction servers as [|srv servers IH]; intros acc n.
  - cbn. destruct (Legacy.redirectServers acc !! n); [reflexivity|].
    now destruct (Legacy.found all n).
  - cbn [fold_left]. rewrite IH.
    unfold first_flagged. cbn [find].
    unfold Legacy.OnUpdate_server at 1. cbn [Legacy.redirectServers].
    destruct (RedirectFromToWWW srv); cbn [andb]; [|reflexivity].
    destruct (String.eqb_spec (Legacy.redirectName (Hostname srv)) n)
      as [<- | Hne].
    + destruct (Legacy.redirectServers acc
                  !! Legacy.redirectName (Hostname srv)) eqn:E.
      * now rewrite E.
      * destruct (Legacy.found all (Legacy.redirectName (Hostname srv)))
          eqn:Ef.
        -- now rewrite E.
        -- now rewrite lookup_insert_eq.
    + destruct (Legacy.redirectServers acc
                  !! Legacy.redirectName (Hostname srv)) eqn:E;
        [reflexivity|].
      destruct (Legacy.found all (Legacy.redirectName (Hostname srv)));
        [reflexivity|].
      now rewrite lookup_insert_ne.
Qed.

(** X10: the redirect map of the older [OnUpdate], entry by entry: a
    name that some server of the intent bears has no entry; any other
    name is paired with the hostname of the first server that is
    flagged for the redirect and has that name as its paired name, and
    has no entry when there is no such server. *)
Theorem OnUpdate_redirects_first_wins servers n :
  Legacy.redirectServers (Legacy.OnUpdate_servers servers) !! n
  = if Legacy.found servers n then None
    else Hostname <$> first_flagged servers n.
Proof.
  unfold Legacy.OnUpdate_servers. rewrite OnUpdate_servers_redirects.
  cbn [Legacy.redirectServers]. now rewrite lookup_empty.
Qed.

Lemma OnUpdate_servers_redirects_empty servers n :
  (forall srv, In srv servers ->
     RedirectFromToWWW srv = false \/
     Legacy.found servers (Legacy.redirectName (Hostname srv)) = true) ->
  Legacy.redirectServers (Legacy.OnUpdate_servers servers) !! n = None.
Proof.
  intros Hall. unfold Legacy.OnUpdate_servers.
  rewrite OnUpdate_servers_redirects. cbn [Legacy.redirectServers].
  rewrite lookup_empty.
  destruct (Legacy.found servers n) eqn:Ef; [reflexivity|].
  unfold first_flagged.
  destruct (find _ servers) as [srv|] eqn:E; [|reflexivity].
  apply find_some in E. destruct E as [Hin Hb].
  apply andb_true_iff in Hb. destruct Hb as [Hflag Hn].
  apply String.eqb_eq in Hn. subst n.
  destruct (Hall srv Hin) as [H | H]; congruence.
Qed.

(** X11: an intent in which no server is flagged for the redirect gets
    an empty redirect map, and so does one in which every paired name
    is the hostname of a server, as when both [example.com] and
    [www.example.com] are declared. *)
Theorem OnUpdate_redirects_none servers :
  (forall srv, In srv servers ->
     RedirectFromToWWW srv = false \/
     Legacy.found servers (Legacy.redirectName (Hostname srv)) = true) ->
  Legacy.redirectServers (Legacy.OnUpdate_servers servers) = ∅.
Proof.
  intros Hall. apply map_eq. intros n.
  rewrite OnUpdate_servers_redirects_empty; [now rewrite lookup_empty|].
  exact Hall.
Qed.

Lemma OnUpdate_redirects_none_witness :
  let servers := [mkServer "example.com" [] true;
                  mkServer "www.example.com" [] true;
                  mkServer "static.example.com" [] false] in
  (forall srv, In srv servers ->
     RedirectFromToWWW srv = false \/
     Legacy.found servers (Legacy.redirectName (Hostname srv)) = true) /\
  Legacy.redirectServers (Legacy.OnUpdate_servers servers) = ∅.
Proof.
  cbv zeta.
  assert (H : forall srv,
             In srv [mkServer "example.com" [] true;
                     mkServer "www.example.com" [] true;
                     mkServer "static.example.com" [] false] ->
             RedirectFromToWWW srv = false \/
             Legacy.found [mkServer "example.com" [] true;
                           mkServer "www.example.com" [] true;
                           mkServer "static.example.com" [] false]
                          (Legacy.redirectName (Hostname srv)) = true).
  { intros srv [<- | [<- | [<- | []]]];
      [right; reflexivity | right; reflexivity | left; reflexivity]. }
  split; [exact H|].
  exact (OnUpdate_redirects_none _ H).
Defined.

(** ** SSL passthrough *)

Lemma int32_small p : - 2 ^ 31 <= p < 2 ^ 31 -> int32 p = p.
Proof. intros H. unfold int32. rewrite Z.mod_small by lia. lia. Qed.

Lemma portByNumber_small ports p :
  - 2 ^ 31 <= p < 2 ^ 31 -> Passthrough.portByNumber ports p = p.
Proof.
  intros Hp. induction ports as [|sp ports IH]; [reflexivity|].
  cbn [Passthrough.portByNumber]. rewrite int32_small by assumption.
  destruct (Z.eqb_spec (Passthrough.spPort sp) p); [assumption | exact IH].
Qed.

(** X12: a passthrough port given as a number in the range of [int32]
    is taken as it is, whether or not the service declares such a
    port. *)
Theorem resolvePort_numeric svc text p :
  Atoi text = (p, false) -> - 2 ^ 31 <= p < 2 ^ 31 ->
  Passthrough.resolvePort svc text = p.
Proof.
  intros Ha Hp. unfold Passthrough.resolvePort. rewrite Ha.
  now apply portByNumber_small.
Qed.

Lemma resolvePort_numeric_witness :
  Atoi "8443" = (8443, false) /\ - 2 ^ 31 <= 8443 < 2 ^ 31 /\
  Passthrough.resolvePort
    (Passthrough.mkService "10.0.0.7"
       [Passthrough.mkServicePort "https" 443]) "8443" = 8443.
Proof.
  split; [reflexivity|]. split; [lia|].
  apply (resolvePort_numeric _ "8443" 8443); [reflexivity | lia].
Defined.

Lemma portByName_find ports name port :
  Passthrough.portByName ports name port
  = match find (fun sp => String.eqb (Passthrough.spName sp) name) ports with
    | Some sp => Passthrough.spPort sp
    | None => port
    end.
Proof.
  induction ports as [|sp ports IH]; [reflexivity|].
  cbn [Passthrough.portByName find].
  now destruct (String.eqb (Passthrough.spName sp) name).
Qed.

(** X13: a passthrough port given by name resolves to the port of the
    first port of the service that bears the name; when the service
    has no port of that name the port is left at 0, and the backend is
    listed all the same. *)
Theorem resolvePort_named svc text :
  Atoi text = (0, true) ->
  (forall sp, find (fun sp => String.eqb (Passthrough.spName sp) text)
                   (Passthrough.Ports svc) = Some sp ->
              Passthrough.resolvePort svc text = Passthrough.spPort sp) /\
  (Forall (fun sp => Passthrough.spName sp <> text) (Passthrough.Ports svc) ->
   Passthrough.resolvePort svc text = 0 /\
   forall host,
     Passthrough.servers [Passthrough.mkBackend (Some svc) text host]
     = [Passthrough.mkTCPServer host (Passthrough.ClusterIP svc) 0 false]).
Proof.
  intros Ha.
  assert (Hr : Passthrough.resolvePort svc text
               = Passthrough.portByName (Passthrough.Ports svc) text 0)
    by (unfold Passthrough.resolvePort; now rewrite Ha).
  split.
  - intros sp Hf. rewrite Hr, portByName_find. now rewrite Hf.
  - intros Hall.
    assert (H0 : Passthrough.resolvePort svc text = 0).
    { rewrite Hr, portByName_find.
      destruct (find _ (Passthrough.Ports svc)) as [sp|] eqn:E;
        [|reflexivity].
      apply find_some in E. destruct E as [Hin Heq].
      apply String.eqb_eq in Heq.
      rewrite List.Forall_forall in Hall. now destruct (Hall sp Hin). }
    split; [exact H0|]. intros host. cbn. now rewrite H0.
Qed.

Lemma resolvePort_named_witness :
  let svc := Passthrough.mkService "10.0.0.7"
               [Passthrough.mkServicePort "http" 80;
                Passthrough.mkServicePort "https" 443] in
  Atoi "https" = (0, true) /\
  find (fun sp => String.eqb (Passthrough.spName sp) "https")
       (Passthrough.Ports svc)
    = Some (Passthrough.mkServicePort "https" 443) /\
  Passthrough.resolvePort svc "https" = 443.
Proof.
  cbv zeta. split; [reflexivity|]. split; [reflexivity|].
  exact (proj1 (resolvePort_named
                  (Passthrough.mkService "10.0.0.7"
                     [Passthrough.mkServicePort "http" 80;
                      Passthrough.mkServicePort "https" 443])
                  "https" eq_refl)
           (Passthrough.mkServicePort "https" 443) eq_refl).
Defined.

(** X14: the proxy's list holds one server for each passthrough backend
    that has a service, in the order of the backends: a backend is left
    out exactly when its service is missing.  Each server carries the
    backend's hostname and the cluster address of the service, and none
    is marked for the proxy protocol. *)
Theorem passthrough_servers_listed pbs :
  map Passthrough.Hostname (Passthrough.servers pbs)
  = map Passthrough.pbHostname
        (List.filter (fun pb => match Passthrough.pbService pb with
                                | Some _ => true
                                | None => false
                                end) pbs) /\
  (forall s, In s (Passthrough.servers pbs) <->
     exists pb svc, In pb pbs /\ Passthrough.pbService pb = Some svc /\
       s = Passthrough.mkTCPServer
             (Passthrough.pbHostname pb) (Passthrough.ClusterIP svc)
             (Passthrough.resolvePort svc (Passthrough.pbPort pb)) false) /\
  Forall (fun s => Passthrough.ProxyProtocol s = false)
         (Passthrough.servers pbs).
Proof.
  induction pbs as [|pb pbs (IH1 & IH2 & IH3)].
  - split; [reflexivity|]. split; [|constructor].
    intros s. split; [intros [] | intros (pb & svc & [] & _)].
  - cbn [Passthrough.servers List.filter].
    destruct (Passthrough.pbService pb) as [svc|] eqn:E.
    + split; [cbn [map]; now rewrite IH1|].
      split; [|constructor; [reflexivity | assumption]].
      intros s. split.
      * intros [<- | Hin].
        -- exists pb, svc. split; [now left|]. now split.
        -- apply IH2 in Hin. destruct Hin as (pb' & svc' & Hin & Hs & ->).
           exists pb', svc'. split; [now right|]. now split.
      * intros (pb' & svc' & [<- | Hin] & Hs & ->).
        -- left. rewrite E in Hs. now injection Hs as <-.
        -- right. apply IH2. eauto.
    + split; [assumption|]. split; [|assumption].
      intros s. split.
      * intros Hin. apply IH2 in Hin.
        destruct Hin as (pb' & svc' & Hin & Hs & ->).
        exists pb', svc'. split; [now right|]. now split.
      * intros (pb' & svc' & [<- | Hin] & Hs & ->); [congruence|].
        apply IH2. eauto.
Qed.

(** ** The sweep of old temporary files *)

Lemma append_length a b :
  String.length (String.append a b) = (String.length a + String.length b)%nat.
Proof.
  induction a as [|c a IH]; [reflexivity|].
  change (String.append (String c a) b) with (String c (String.append a b)).
  cbn [String.length]. now rewrite IH.
Qed.

Lemma append_inj_l a b c :
  String.append a b = String.append a c -> b = c.
Proof.
  induction a as [|x a IH]; [auto|].
  change (String.append (String x a) b) with (String x (String.append a b)).
  change (String.append (String x a) c) with (String x (String.append a c)).
  intros [= H]. auto.
Qed.

Lemma append_assoc a b c :
  String.append (String.append a b) c = String.append a (String.append b c).
Proof.
  induction a as [|x a IH]; [reflexivity|].
  change (String.append (String x a) b) with (String x (String.append a b)).
  change (String.append (String x (String.append a b)) c)
    with (String x (String.append (String.append a b) c)).
  change (String.append (String x a) (String.append b c))
    with (String x (String.append a (String.append b c))).
  now rewrite IH.
Qed.

Lemma Join_not_root root name : Janitor.Join root name <> root.
Proof.
  intros H. apply (f_equal String.length) in H.
  unfold Janitor.Join in H. rewrite !append_length in H.
  cbn [String.length] in H. lia.
Qed.

Lemma Join_eqb_root root name :
  String.eqb root (Janitor.Join root name) = false.
Proof.
  apply String.eqb_neq. intros H. now apply (Join_not_root root name).
Qed.

(** The walk over the names when nothing blocks it. *)
Lemma walkNames_clear TempDir names :
  existsb blocked names = false ->
  forall files,
    Janitor.walkNames TempDir names files
    = (None,
       files ++ map (fun de => Janitor.Join TempDir (Janitor.deName de))
                    (List.filter swept names)).
Proof.
  induction names as [|de names IH]; intros Hb files.
  - cbn. now rewrite app_nil_r.
  - cbn [existsb] in Hb. apply orb_false_iff in Hb. destruct Hb as [Hde Hb].
    cbn [Janitor.walkNames List.filter]. unfold blocked in Hde.
    unfold swept at 1.
    destruct (Janitor.deInfo de) as [info|]; [|discriminate].
    unfold Janitor.walkFn. rewrite Join_eqb_root. cbn [negb].
    destruct (Janitor.IsDir info); cbn [andb negb] in *.
    + rewrite Hde. cbn [negb]. now apply IH.
    + destruct (HasPrefix (Janitor.Name info) Current.tempNginxPattern
                && (Janitor.ModTime info
                    <? Janitor.deNow de - Janitor.fiveMinutes)).
      * rewrite IH by assumption. cbn [map]. now rewrite <- app_assoc.
      * now apply IH.
Qed.

(** The walk over the names stops at what blocks it. *)
Lemma walkNames_blocked TempDir names :
  existsb blocked names = true ->
  forall files, exists e fs,
    Janitor.walkNames TempDir names files = (Some e, fs).
Proof.
  induction names as [|de names IH]; intros Hb files; [discriminate|].
  cbn [existsb] in Hb. cbn [Janitor.walkNames].
  destruct (blocked de) eqn:Hde.
  - unfold blocked in Hde.
    destruct (Janitor.deInfo de) as [info|]; [|eauto].
    apply andb_true_iff in Hde. destruct Hde as [-> Hr].
    unfold Janitor.walkFn. rewrite Hr. eauto.
  - cbn [orb] in Hb. unfold blocked in Hde.
    destruct (Janitor.deInfo de) as [info|]; [|discriminate].
    unfold Janitor.walkFn. rewrite Join_eqb_root. cbn [negb].
    destruct (Janitor.IsDir info); cbn [andb] in *.
    + rewrite Hde. now apply IH.
    + destruct (HasPrefix (Janitor.Name info) Current.tempNginxPattern
                && (Janitor.ModTime info
                    <? Janitor.deNow de - Janitor.fiveMinutes));
        now apply IH.
Qed.

(** The walk enters a readable temporary directory, after looking at
    the directory itself. *)
Lemma Walk_root TempDir root names :
  walkable root ->
  Janitor.Walk TempDir root names
  = Janitor.walkNames TempDir names
      (if root_swept root then [TempDir] else []).
Proof.
  intros (info & Hi & Hd & Hr).
  unfold Janitor.Walk, root_swept. rewrite Hi, Hd, Hr. cbn [negb].
  unfold Janitor.walkFn. rewrite String.eqb_refl. cbn [negb].
  rewrite Bool.andb_false_r.
  now destruct (HasPrefix (Janitor.Name info) Current.tempNginxPattern
                && (Janitor.ModTime info
                    <? Janitor.deNow root - Janitor.fiveMinutes)).
Qed.

(** X15: what the walk over a readable temporary directory collects.
    When no entry blocks it, the files are, in the order of the entries,
    those directly in the directory that are no directories, have a
    name starting with [nginx-cfg] and were last modified more than
    five minutes ago, preceded by the directory itself if its own name
    and age pass the same test; nothing below a subdirectory is ever
    looked at.  When [Lstat] fails for an entry, or a subdirectory
    cannot be read, the walk ends with an error. *)
Theorem Walk_collects TempDir root names :
  walkable root ->
  (existsb blocked names = false ->
   Janitor.Walk TempDir root names
   = (None,
      (if root_swept root then [TempDir] else [])
      ++ map (fun de => Janitor.Join TempDir (Janitor.deName de))
             (List.filter swept names))) /\
  (existsb blocked names = true ->
   exists e fs, Janitor.Walk TempDir root names = (Some e, fs)).
Proof.
  intros Hroot. rewrite (Walk_root _ _ _ Hroot). split; intros Hb.
  - now apply walkNames_clear.
  - now apply walkNames_blocked.
Qed.

Lemma Walk_collects_witness :
  let root := Janitor.mkDirent "tmp" (Some (Janitor.mkFileInfo "tmp" true 0))
                               true (3600 * 1000000000) in
  let names :=
    [Janitor.mkDirent "nginx-cfg77"
       (Some (Janitor.mkFileInfo "nginx-cfg77" false 0))
       true (3600 * 1000000000);
     Janitor.mkDirent "nginx"
       (Some (Janitor.mkFileInfo "nginx" true 0))
       true (3600 * 1000000000);
     Janitor.mkDirent "nginx-cfg78"
       (Some (Janitor.mkFileInfo "nginx-cfg78" false (3599 * 1000000000)))
       true (3600 * 1000000000)] in
  walkable root /\ existsb blocked names = false /\
  Janitor.Walk "/tmp" root names = (None, ["/tmp/nginx-cfg77"%string]).
Proof.
  intros root names.
  assert (H1 : walkable root) by (eexists; repeat split).
  assert (H2 : existsb blocked names = false) by reflexivity.
  split; [exact H1|]. split; [exact H2|].
  exact (proj1 (Walk_collects "/tmp" root names H1) H2).
Defined.

Lemma walkFn_sound TempDir path info err now files p :
  In p (snd (Janitor.walkFn TempDir path info err now files)) ->
  In p files \/
  (p = path /\ (Janitor.IsDir info = false \/ TempDir = path) /\
   HasPrefix (Janitor.Name info) Current.tempNginxPattern = true).
Proof.
  unfold Janitor.walkFn. destruct err; [now left|].
  destruct (Janitor.IsDir info) eqn:Hd; cbn [andb].
  - destruct (String.eqb_spec TempDir path) as [He | Hne]; cbn [negb];
      [|now left].
    destruct (HasPrefix _ _) eqn:Hp; cbn [andb]; [|now left].
    destruct (_ <? _); cbn [snd]; [|now left].
    intros Hin. apply in_app_or in Hin. destruct Hin as [H | [<- | []]];
      [now left | right; auto].
  - destruct (HasPrefix _ _) eqn:Hp; cbn [andb]; [|now left].
    destruct (_ <? _); cbn [snd]; [|now left].
    intros Hin. apply in_app_or in Hin. destruct Hin as [H | [<- | []]];
      [now left | right; auto].
Qed.

Lemma walkNames_sound TempDir names :
  forall files p,
    In p (snd (Janitor.walkNames TempDir names files)) ->
    In p files \/
    exists de info,
      In de names /\ Janitor.deInfo de = Some info /\
      p = Janitor.Join TempDir (Janitor.deName de) /\
      Janitor.IsDir info = false /\
      HasPrefix (Janitor.Name info) Current.tempNginxPattern = true.
Proof.
  induction names as [|de names IH]; intros files p; [now left|].
  cbn [Janitor.walkNames].
  destruct (Janitor.deInfo de) as [info|] eqn:Hi; [|now left].
  assert (Hstep : forall err r files',
            Janitor.walkFn TempDir (Janitor.Join TempDir (Janitor.deName de))
                           info err (Janitor.deNow de) files = (r, files') ->
            In p (snd (match r with
                       | Janitor.WalkErr e => (Some e, files')
                       | _ => Janitor.walkNames TempDir names files'
                       end)) ->
            In p files \/
            exists de0 info0,
              In de0 (de :: names) /\ Janitor.deInfo de0 = Some info0 /\
              p = Janitor.Join TempDir (Janitor.deName de0) /\
              Janitor.IsDir info0 = false /\
              HasPrefix (Janitor.Name info0) Current.tempNginxPattern = true).
  { intros err r files' Hw Hin.
    assert (Hf : In p files' ->
                 In p files \/
                 (p = Janitor.Join TempDir (Janitor.deName de) /\
                  Janitor.IsDir info = false /\
                  HasPrefix (Janitor.Name info) Current.tempNginxPattern
                  = true)).
    { intros H. replace files' with
        (snd (Janitor.walkFn TempDir
                (Janitor.Join TempDir (Janitor.deName de)) info err
                (Janitor.deNow de) files)) in H by now rewrite Hw.
      apply walkFn_sound in H.
      destruct H as [H | (-> & [Hd | He] & Hp)]; [now left | right; auto |].
      symmetry in He. now apply Join_not_root in He. }
    assert (Hall : In p files' \/
                   exists de0 info0,
                     In de0 names /\ Janitor.deInfo de0 = Some info0 /\
                     p = Janitor.Join TempDir (Janitor.deName de0) /\
                     Janitor.IsDir info0 = false /\
                     HasPrefix (Janitor.Name info0) Current.tempNginxPattern
                     = true).
    { destruct r; [now apply IH | now apply IH | now left]. }
    destruct Hall as [H | (de0 & info0 & Hin0 & Hrest)].
    - destruct (Hf H) as [H' | (-> & Hd & Hp)]; [now left|].
      right. exists de, info. split; [now left|]. auto.
    - right. exists de0, info0. split; [now right | exact Hrest]. }
  destruct (Janitor.IsDir info).
  - destruct (Janitor.walkFn _ _ _ (negb _) _ _) as [r files'] eqn:Hw.
    now apply (Hstep _ _ _ Hw).
  - destruct (Janitor.walkFn _ _ _ false _ _) as [r files'] eqn:Hw.
    now apply (Hstep _ _ _ Hw).
Qed.

Lemma Walk_sound TempDir root names p :
  In p (snd (Janitor.Walk TempDir root names)) ->
  p = TempDir \/
  exists de info,
    In de names /\ Janitor.deInfo de = Some info /\
    p = Janitor.Join TempDir (Janitor.deName de) /\
    Janitor.IsDir info = false /\
    HasPrefix (Janitor.Name info) Current.tempNginxPattern = true.
Proof.
  unfold Janitor.Walk.
  destruct (Janitor.deInfo root) as [info|]; [|intros []].
  assert (Hroot : forall err r files,
            Janitor.walkFn TempDir TempDir info err (Janitor.deNow root) []
            = (r, files) -> forall q, In q files -> q = TempDir).
  { intros err r files Hw q Hq.
    replace files with
      (snd (Janitor.walkFn TempDir TempDir info err (Janitor.deNow root) []))
      in Hq by now rewrite Hw.
    apply walkFn_sound in Hq. destruct Hq as [[] | (-> & _)]. reflexivity. }
  destruct (Janitor.IsDir info); cbn [negb].
  - destruct (Janitor.walkFn _ _ _ (negb _) _ _) as [r files] eqn:Hw.
    specialize (Hroot _ _ _ Hw).
    destruct r; cbn [snd]; intros Hin; try (left; now apply Hroot).
    apply walkNames_sound in Hin. destruct Hin as [H | H]; [|now right].
    left. now apply Hroot.
  - destruct (Janitor.walkFn _ _ _ false _ _) as [r files] eqn:Hw.
    specialize (Hroot _ _ _ Hw).
    destruct r; cbn [snd]; intros Hin; left; now apply Hroot.
Qed.

(** X16: the sweep never collects what the newer [OnUpdate] leaves
    behind.  The files [testTemplate] creates lie in the subdirectory
    [nginx] of the temporary directory, which the walk does not enter,
    and the file of the diff block has a name that starts with
    [new-nginx-cfg], not with [nginx-cfg]. *)
Theorem sweep_misses_OnUpdate_files os root names rnd :
  Forall proper_entry names ->
  let files := snd (Janitor.Walk (TempDir os) root names) in
  ~ In (temp_name (String.append (TempDir os) "/nginx")
                  Current.tempNginxPattern rnd) files /\
  ~ In (temp_name (TempDir os) "new-nginx-cfg" rnd) files.
Proof.
  intros Hproper. cbv zeta. rewrite List.Forall_forall in Hproper.
  split; intros Hin; apply Walk_sound in Hin;
    destruct Hin as [Hroot | (de & info & Hde & Hi & Hp & Hd & Hpre)].
  - apply (f_equal String.length) in Hroot. unfold temp_name in Hroot.
    rewrite !append_length in Hroot. cbn [String.length] in Hroot. lia.
  - destruct (Hproper de Hde) as [Hslash _].
    unfold temp_name, Janitor.Join in Hp. rewrite append_assoc in Hp.
    apply append_inj_l in Hp.
    change (String.append "/nginx" ?x)
      with (String.append "/" (String.append "nginx" x)) in Hp.
    assert (Hn : Janitor.deName de
                 = String.append "nginx"
                     (String.append "/"
                        (String.append Current.tempNginxPattern rnd))).
    { symmetry. exact (append_inj_l "/" _ _ Hp). }
    rewrite Hn in Hslash. rewrite !in_cutset_append in Hslash.
    discriminate Hslash.
  - apply (f_equal String.length) in Hroot. unfold temp_name in Hroot.
    rewrite !append_length in Hroot. cbn [String.length] in Hroot. lia.
  - destruct (Hproper de Hde) as [_ Hname].
    unfold temp_name, Janitor.Join in Hp.
    apply append_inj_l, append_inj_l in Hp.
    rewrite (Hname info Hi), <- Hp in Hpre.
    destruct rnd; discriminate Hpre.
Qed.

Lemma sweep_misses_OnUpdate_files_witness :
  let names :=
    [Janitor.mkDirent "nginx" (Some (Janitor.mkFileInfo "nginx" true 0))
                      true (3600 * 1000000000);
     Janitor.mkDirent "nginx-cfg77"
                      (Some (Janitor.mkFileInfo "nginx-cfg77" false 0))
                      true (3600 * 1000000000)] in
  let root := Janitor.mkDirent "tmp" (Some (Janitor.mkFileInfo "tmp" true 0))
                               true (3600 * 1000000000) in
  Forall proper_entry names /\
  snd (Janitor.Walk (TempDir sample_os) root names) = ["/tmp/nginx-cfg77"%string]
  /\
  ~ In (temp_name (String.append (TempDir sample_os) "/nginx")
                  Current.tempNginxPattern "4021337")
       (snd (Janitor.Walk (TempDir sample_os) root names)).
Proof.
  cbv zeta.
  assert (H : Forall proper_entry
                [Janitor.mkDirent "nginx"
                   (Some (Janitor.mkFileInfo "nginx" true 0))
                   true (3600 * 1000000000);
                 Janitor.mkDirent "nginx-cfg77"
                   (Some (Janitor.mkFileInfo "nginx-cfg77" false 0))
                   true (3600 * 1000000000)]).
  { repeat constructor; cbn; now intros info [= <-]. }
  split; [exact H|]. split; [reflexivity|].
  exact (proj1 (sweep_misses_OnUpdate_files sample_os _ _ "4021337" H)).
Defined.

Lemma RemoveFile_run rf file w :
  Janitor.RemoveFile rf file w
  = if rf w file
    then (Some (ErrOS "remove" file),
          mkWorld (files w) (trace w ++ [EvRemove file]))
    else (None, mkWorld (delete file (files w)) (trace w ++ [EvRemove file])).
Proof.
  unfold Janitor.RemoveFile. rewrite !bind_run. cbn [ask emit fst snd].
  destruct (rf w file); [reflexivity|]. now rewrite bind_run.
Qed.

Lemma lookup_delete_more (m : gmap string (list Byte.byte)) file l p :
  (if bool_decide (p ∈ l) then None else delete file m !! p)
  = if bool_decide (p ∈ file :: l) then None else m !! p.
Proof.
  destruct (decide (p = file)) as [-> | Hne].
  - rewrite lookup_delete_eq.
    rewrite (bool_decide_eq_true_2 (file ∈ file :: l))
      by (apply elem_of_cons; now left).
    now destruct (bool_decide (file ∈ l)).
  - rewrite lookup_delete_ne by congruence.
    destruct (bool_decide (p ∈ l)) eqn:Hb.
    + apply bool_decide_eq_true_1 in Hb.
      rewrite bool_decide_eq_true_2; [reflexivity|].
      apply elem_of_cons. now right.
    + apply bool_decide_eq_false_1 in Hb.
      rewrite bool_decide_eq_false_2; [reflexivity|].
      intros Hin. apply elem_of_cons in Hin.
      destruct Hin; [congruence | contradiction].
Qed.

(** X17: the loop that removes the collected files stops at the first
    file that cannot be removed and returns that error; the files
    before it are gone, every other file is as it was.  When it returns
    no error, exactly the collected files are gone. *)
Theorem removeAll_outcome rf collected w :
  let r := Janitor.removeAll rf collected w in
  (r.1 = None ->
   forall p, files r.2 !! p
             = if bool_decide (p ∈ collected) then None else files w !! p) /\
  (forall e, r.1 = Some e ->
   exists done file rest,
     collected = done ++ file :: rest /\ e = ErrOS "remove" file /\
     forall p, files r.2 !! p
               = if bool_decide (p ∈ done) then None else files w !! p).
Proof.
  cbv zeta. revert w. induction collected as [|file rest IH]; intros w.
  - split.
    + intros _ p. rewrite bool_decide_eq_false_2; [reflexivity|].
      apply not_elem_of_nil.
    + intros e H. discriminate H.
  - cbn [Janitor.removeAll]. rewrite bind_run, RemoveFile_run.
    destruct (rf w file) eqn:Hf; cbn [fst snd].
    + split; [intros H; discriminate H|].
      intros e [= <-]. exists [], file, rest. repeat split.
    + destruct (IH (mkWorld (delete file (files w))
                            (trace w ++ [EvRemove file]))) as [IH1 IH2].
      split.
      * intros Hr p. rewrite (IH1 Hr p). cbn [files].
        apply lookup_delete_more.
      * intros e He. destruct (IH2 e He) as (done & f & rest' & -> & -> & Hp).
        exists (file :: done), f, rest'. repeat split.
        intros p. rewrite Hp. cbn [files]. apply lookup_delete_more.
Qed.

Lemma removeAll_outcome_witness :
  (Janitor.removeAll (fun _ p => String.eqb p "/tmp/nginx-cfg2")
                     ["/tmp/nginx-cfg1"; "/tmp/nginx-cfg2";
                      "/tmp/nginx-cfg3"]%string sample_world).1
  = Some (ErrOS "remove" "/tmp/nginx-cfg2") /\
  exists done file rest,
    ["/tmp/nginx-cfg1"; "/tmp/nginx-cfg2"; "/tmp/nginx-cfg3"]%string
    = done ++ file :: rest /\
    ErrOS "remove" "/tmp/nginx-cfg2" = ErrOS "remove" file /\
    forall p,
      files (Janitor.removeAll (fun _ p => String.eqb p "/tmp/nginx-cfg2")
               ["/tmp/nginx-cfg1"; "/tmp/nginx-cfg2";
                "/tmp/nginx-cfg3"]%string sample_world).2 !! p
      = if bool_decide (p ∈ done) then None else files sample_world !! p.
Proof.
  assert (H : (Janitor.removeAll
                 (fun _ p => String.eqb p "/tmp/nginx-cfg2")
                 ["/tmp/nginx-cfg1"; "/tmp/nginx-cfg2";
                  "/tmp/nginx-cfg3"]%string sample_world).1
              = Some (ErrOS "remove" "/tmp/nginx-cfg2"))
    by (vm_compute; reflexivity).
  split; [exact H|].
  exact (proj2 (removeAll_outcome _ _ sample_world) _ H).
Defined.

(** X18: when the walk over the temporary directory fails, because
    [Lstat] fails for one entry or one subdirectory cannot be read,
    [cleanTempNginxCfg] returns the error and removes nothing at all,
    not even the files collected before the failure. *)
Theorem cleanTempNginxCfg_gives_up os rf root names w :
  walkable root -> existsb blocked names = true ->
  exists e, Janitor.cleanTempNginxCfg os rf root names w = (Some e, w).
Proof.
  intros Hroot Hb.
  unfold Janitor.cleanTempNginxCfg. rewrite (Walk_root _ _ _ Hroot).
  destruct (walkNames_blocked (TempDir os) names Hb
              (if root_swept root then [TempDir os] else []))
    as (e & fs & ->).
  now exists e.
Qed.

Lemma cleanTempNginxCfg_gives_up_witness :
  let root := Janitor.mkDirent "tmp" (Some (Janitor.mkFileInfo "tmp" true 0))
                               true (3600 * 1000000000) in
  let names :=
    [Janitor.mkDirent "nginx-cfg77"
       (Some (Janitor.mkFileInfo "nginx-cfg77" false 0))
       true (3600 * 1000000000);
     Janitor.mkDirent "systemd-private"
       (Some (Janitor.mkFileInfo "systemd-private" true 0))
       false (3600 * 1000000000)] in
  walkable root /\ existsb blocked names = true /\
  exists e,
    Janitor.cleanTempNginxCfg sample_os (fun _ _ => false) root names
                              sample_world
    = (Some e, sample_world).
Proof.
  cbv zeta.
  assert (H1 : walkable
                 (Janitor.mkDirent "tmp"
                    (Some (Janitor.mkFileInfo "tmp" true 0)) true
                    (3600 * 1000000000)))
    by (eexists; repeat split).
  split; [exact H1|]. split; [reflexivity|].
  apply (cleanTempNginxCfg_gives_up sample_os (fun _ _ => false) _ _
           sample_world H1).
  reflexivity.
Defined.

(** ** [testTemplate] and [OnUpdate], step by step *)

Lemma mret_run {A} (a : A) w : (mret a : M A) w = (a, w).
Proof. reflexivity. Qed.

Lemma CreateTemp_run os dir pattern w :
  let p := temp_name (if String.eqb dir "" then TempDir os else dir)
                     pattern (nextRandom os w) in
  CreateTemp os dir pattern w
  = if createTempFails os w p then (inr (ErrOS "open" p), w)
    else (inl p, mkWorld (<[p := []]> (files w))
                         (trace w ++ [EvCreateTemp p])).
Proof.
  cbv zeta. unfold CreateTemp. rewrite !bind_run. cbn [ask fst snd].
  destruct (createTempFails os w _); [reflexivity|].
  now rewrite !bind_run.
Qed.

Lemma WriteFile_run os name data w :
  WriteFile os name data w
  = match writeOutcome os w name data with
    | WriteOk =>
        (None, mkWorld (<[name := data]> (files w))
                       (trace w ++ [EvWriteFile name data]))
    | WriteFailOpen =>
        (Some (ErrOS "open" name),
         mkWorld (files w) (trace w ++ [EvWriteFile name data]))
    | WriteFailAfter n =>
        (Some (ErrOS "write" name),
         mkWorld (<[name := take n data]> (files w))
                 (trace w ++ [EvWriteFile name data]))
    end.
Proof.
  unfold WriteFile. rewrite !bind_run. cbn [ask fst snd].
  destruct (writeOutcome os w name data); rewrite ?bind_run; reflexivity.
Qed.





Lemma testTemplate_body_error os binary dir cfg w :
  ((CreateTemp os dir "nginx-cfg" ≫= fun r =>
      match r with
      | inr err => mret (Some err)
      | inl tmpfile =>
          WriteFile os tmpfile cfg ≫= fun err =>
            match err with
            | Some e => mret (Some e)
            | None =>
                ask (fun w => nginxTest os w tmpfile) ≫= fun out =>
                  Exec [binary; "-t"; "-c"; tmpfile]%string;;
                  match out with
                  | Some o => mret (Some (ErrNginxTest o))
                  | None => Remove tmpfile;; mret None
                  end
            end
      end) w).1 <> Some ErrEmptyConfig.
Proof.
  rewrite bind_run, CreateTemp_run. cbv zeta.
  destruct (createTempFails os w _); cbn [fst snd]; [discriminate|].
  rewrite bind_run, WriteFile_run.
  destruct (writeOutcome os _ _ cfg); cbn [fst snd]; try discriminate.
  rewrite !bind_run. cbn [ask fst snd Exec emit files trace].
  destruct (nginxTest os _ _); [discriminate|].
  rewrite !bind_run. discriminate.
Qed.

(** X20: the error of an empty configuration means just that.  In both
    generations [testTemplate] returns it exactly when the candidate has
    no bytes, and then nothing has been done: no file created, no
    command run.  The older [OnUpdate] then returns it with the state
    as it was; the newer one has written the tracing configuration
    before. *)
Theorem empty_candidate_rejected os binary cfg w :
  ((Legacy.testTemplate os binary cfg w).1 = Some ErrEmptyConfig <->
   cfg = []) /\
  ((Current.testTemplate os binary cfg w).1 = Some ErrEmptyConfig <->
   cfg = []) /\
  (cfg = [] ->
   Legacy.testTemplate os binary cfg w = (Some ErrEmptyConfig, w) /\
   Current.testTemplate os binary cfg w = (Some ErrEmptyConfig, w) /\
   Legacy.OnUpdate os binary (inl cfg) w = (Some ErrEmptyConfig, w) /\
   forall grpc expanded,
     (Current.createOpentracingCfg os expanded w).1 = None ->
     Current.OnUpdate os binary grpc (inl cfg) expanded w
     = (Some ErrEmptyConfig,
        (Current.createOpentracingCfg os expanded w).2)).
Proof.
  split; [|split].
  - unfold Legacy.testTemplate. destruct cfg as [|b cfg].
    + now split.
    + change (Z.of_nat (length (b :: cfg)) =? 0) with false. cbv iota.
      split; [|discriminate]. intros H.
      now apply testTemplate_body_error in H.
  - unfold Current.testTemplate. destruct cfg as [|b cfg].
    + now split.
    + change (Z.of_nat (length (b :: cfg)) =? 0) with false. cbv iota.
      split; [|discriminate]. intros H.
      now apply testTemplate_body_error in H.
  - intros ->. repeat split.
    intros grpc expanded He. unfold Current.OnUpdate.
    rewrite bind_run, He. now rewrite bind_run.
Qed.

Lemma empty_candidate_rejected_witness :
  Legacy.OnUpdate sample_os "nginx" (inl []) sample_world
  = (Some ErrEmptyConfig, sample_world).
Proof.
  exact (proj1 (proj2 (proj2 (proj2 (proj2
           (empty_candidate_rejected sample_os "nginx" [] sample_world))
           eq_refl)))).
Defined.

















Lemma grew_In P w w' evs ev :
  grew P w w' -> trace w' = trace w ++ evs -> In ev evs -> P ev.
Proof.
  intros (evs' & H & F) He Hin. rewrite H in He.
  apply app_inv_head in He. subst evs'.
  rewrite List.Forall_forall in F. now apply F.
Qed.




Lemma ParseBool_true str :
  ParseBool str = Some true <->
  In str ["1"; "t"; "T"; "TRUE"; "true"; "True"]%string.
Proof.
  unfold ParseBool.
  destruct (existsb (String.eqb str)
              ["1"; "t"; "T"; "TRUE"; "true"; "True"]%string) eqn:E.
  - split; [intros _ | reflexivity].
    apply existsb_exists in E. destruct E as (x & Hin & Hx).
    apply String.eqb_eq in Hx. now subst x.
  - split.
    + intros H. now destruct (existsb _ _) in H.
    + intros Hin. exfalso.
      assert (existsb (String.eqb str)
                ["1"; "t"; "T"; "TRUE"; "true"; "True"]%string = true).
      { apply existsb_exists. exists str. split; [exact Hin|].
        apply String.eqb_refl. }
      congruence.
Qed.

(** X23: what [SetConfig] leaves behind.  The proxy protocol is on
    exactly when the map holds [use-proxy-protocol] with one of the six
    spellings of true; no map and an unreadable value both leave it
    off.  The active configuration file is not touched.  Without a
    session ticket key nothing happens to the files; with one, the
    decoded bytes are written to the ticket key file even when the
    decoding failed. *)
Theorem SetConfig_outcome os ticketKey DecodeString cmap w :
  let m := default ∅ cmap in
  let r := SetConfig os ticketKey DecodeString cmap w in
  (r.1 = true <->
   exists val, m !! "use-proxy-protocol"%string = Some val /\
               In val ["1"; "t"; "T"; "TRUE"; "true"; "True"]%string) /\
  untouched cfgPath w r.2 /\
  (ticketKey m = ""%string -> r.2 = w) /\
  (ticketKey m <> ""%string ->
   trace r.2
   = trace w ++ [EvWriteFile "/etc/nginx/tickets.key"
                             (DecodeString (ticketKey m)).1]).
Proof.
  cbv zeta.
  assert (Hm : match cmap with Some data => data | None => ∅ end
               = default ∅ cmap) by now destruct cmap.
  unfold SetConfig. rewrite Hm. set (m := default ∅ cmap).
  rewrite bind_run.
  destruct (String.eqb (ticketKey m) "") eqn:Ek.
  - apply String.eqb_eq in Ek. rewrite !mret_run. cbn [fst snd].
    split; [|split; [apply untouched_refl | split; [reflexivity | congruence]]].
    destruct (m !! "use-proxy-protocol"%string) as [val|] eqn:Ev.
    + destruct (ParseBool val) as [b|] eqn:Ep.
      * split.
        -- intros ->. exists val. split; [reflexivity|].
           now apply ParseBool_true.
        -- intros (v & [= <-] & Hin). apply ParseBool_true in Hin. congruence.
      * split; [discriminate|].
        intros (v & [= <-] & Hin). apply ParseBool_true in Hin. congruence.
    + split; [discriminate | now intros (v & ? & _)].
  - apply String.eqb_neq in Ek.
    destruct (DecodeString (ticketKey m)) as [d err] eqn:Ed.
    rewrite mret_run. cbn [fst snd].
    split; [|split; [now apply WriteFile_untouched | split; [congruence|]]].
    + destruct (m !! "use-proxy-protocol"%string) as [val|] eqn:Ev.
      * destruct (ParseBool val) as [b|] eqn:Ep.
        -- split.
           ++ intros ->. exists val. split; [reflexivity|].
              now apply ParseBool_true.
           ++ intros (v & [= <-] & Hin). apply ParseBool_true in Hin.
              congruence.
        -- split; [discriminate|].
           intros (v & [= <-] & Hin). apply ParseBool_true in Hin. congruence.
      * split; [discriminate | now intros (v & ? & _)].
    + intros _. rewrite WriteFile_run.
      now destruct (writeOutcome os w "/etc/nginx/tickets.key" d).
Qed.

Lemma SetConfig_outcome_witness :
  (SetConfig sample_os (fun _ => ""%string) (fun _ => ([], false))
             (Some {[ "use-proxy-protocol"%string := "True"%string ]})
             sample_world).1 = true.
Proof.
  apply (proj1 (SetConfig_outcome sample_os (fun _ => ""%string)
                  (fun _ => ([], false))
                  (Some {[ "use-proxy-protocol"%string := "True"%string ]})
                  sample_world)).
  exists "True"%string. split.
  - apply lookup_singleton_eq.
  - cbn. tauto.
Defined.

Lemma Replace_slash_clean s : in_cutset "/" (Replace_slash s) = false.
Proof.
  induction s as [|c s IH]; [reflexivity|].
  cbn [Replace_slash]. destruct (Ascii.eqb c "/") eqn:E; cbn [in_cutset].
  - exact IH.
  - rewrite Ascii.eqb_sym, E. exact IH.
Qed.

Lemma Replace_slash_length s :
  String.length (Replace_slash s) = String.length s.
Proof. induction s as [|c s IH]; cbn; congruence. Qed.

Lemma Replace_slash_id s : in_cutset "/" s = false -> Replace_slash s = s.
Proof.
  induction s as [|c s IH]; [reflexivity|].
  cbn [in_cutset Replace_slash]. rewrite (Ascii.eqb_sym "/" c).
  destruct (Ascii.eqb c "/"); [discriminate|].
  intros H. now rewrite IH.
Qed.

Lemma pemName_not_empty dir base :
  String.eqb (String.append dir (String.append "/" base)) "" = false.
Proof. now destruct dir. Qed.

(** X24: the Diffie-Hellman parameter never reaches the template when
    the configuration is generated.  Whatever [SSLDHParam] names and
    whatever the secret holds, [generateTemplate] hands [renderTemplate]
    an empty [SSLDHParam] (the file name is assigned to a variable of
    the inner block), so that the template configuration is left without
    a DH parameter file; the file is still handed to
    [AddOrUpdateDHParam] whenever [SSLDHParam] is set, with the name and
    the bytes [getDHParam] returns. *)
Theorem generateTemplate_drops_DHParam dir GetSecret s :
  let g := generateTemplate_DHParam dir GetSecret s in
  g.1 = ""%string /\
  renderTemplate_DHParam dir GetSecret g.1 = (""%string, None) /\
  g.2 = if String.eqb s "" then None else Some (getDHParam dir GetSecret s).
Proof.
  cbv zeta. unfold generateTemplate_DHParam.
  destruct (String.eqb s "") eqn:E; cbn [negb].
  - now repeat split.
  - destruct (getDHParam dir GetSecret s) as [f dh]. now repeat split.
Qed.

(** X25: what [renderTemplate] makes of [SSLDHParam] when it does get
    one.  If the secret of that name is found and holds bytes under
    [dhparam.pem], the template configuration gets these bytes and a
    file directly in the SSL directory, named after the secret with
    every slash turned into a dash (a name without slash is kept as it
    is); in every other case both fields stay unset. *)
Theorem renderTemplate_DHParam_outcome dir GetSecret s :
  let r := renderTemplate_DHParam dir GetSecret s in
  let base := Replace_slash s in
  (in_cutset "/" base = false /\
   String.length base = String.length s /\
   (in_cutset "/" s = false -> base = s)) /\
  (forall data dh,
     s <> ""%string -> GetSecret s = Some data ->
     data !! "dhparam.pem"%string = Some (Some dh) ->
     r = (String.append dir
            (String.append "/" (String.append base ".pem")), Some dh)) /\
  (s = ""%string \/ GetSecret s = None \/
   (exists data, GetSecret s = Some data /\
      (data !! "dhparam.pem"%string = None \/
       data !! "dhparam.pem"%string = Some None)) ->
   r = (""%string, None)).
Proof.
  cbv zeta. split; [|split].
  - split; [apply Replace_slash_clean|].
    split; [apply Replace_slash_length | apply Replace_slash_id].
  - intros data dh Hs Hg Hd. unfold renderTemplate_DHParam, getDHParam.
    apply String.eqb_neq in Hs. rewrite Hs, Hg, Hd. cbn [negb].
    rewrite pemName_not_empty. cbn [negb andb].
    rewrite bool_decide_true by discriminate. reflexivity.
  - unfold renderTemplate_DHParam, getDHParam.
    intros [-> | [Hg | (data & Hg & [Hd | Hd])]].
    + reflexivity.
    + rewrite Hg. now destruct (negb (String.eqb s "")).
    + rewrite Hg, Hd. now destruct (negb (String.eqb s "")).
    + rewrite Hg, Hd. destruct (negb (String.eqb s "")); [|reflexivity].
      rewrite bool_decide_false by (intros H; now apply H).
      now rewrite Bool.andb_false_r.
Qed.

Lemma renderTemplate_DHParam_outcome_witness :
  let GetSecret := fun name : string =>
    if String.eqb name "default/dh"
    then Some {[ "dhparam.pem"%string := Some [Byte.x2d; Byte.x2d] ]}
    else None in
  renderTemplate_DHParam "/etc/ingress-controller/ssl" GetSecret "default/dh"
  = ("/etc/ingress-controller/ssl/default-dh.pem"%string,
     Some [Byte.x2d; Byte.x2d]).
Proof.
  intros GetSecret.
  apply (proj1 (proj2 (renderTemplate_DHParam_outcome
                         "/etc/ingress-controller/ssl" GetSecret
                         "default/dh"))
           {[ "dhparam.pem"%string := Some [Byte.x2d; Byte.x2d] ]}).
  - discriminate.
  - reflexivity.
  - apply lookup_singleton_eq.
Defined.

(** X26: [clearCertificates] keeps the servers, in their order, with
    everything but the certificate: two lists of servers come out equal
    exactly when they agree in all but the certificates, every server
    comes out without certificate, and clearing a second time changes
    nothing. *)
Theorem clearCertificates_ignores_certificates
    {Cert Rest : Type} (a b : list (@CertServer Cert Rest)) :
  (clearCertificates a = clearCertificates b <->
   map serverRest a = map serverRest b) /\
  Forall (fun srv => SSLCert srv = None) (clearCertificates a) /\
  map serverRest (clearCertificates a) = map serverRest a /\
  clearCertificates (clearCertificates a) = clearCertificates a.
Proof.
  split; [|split; [|split]].
  - revert b. induction a as [|x a IH]; intros [|y b]; cbn;
      try (split; [reflexivity | reflexivity]);
      try (split; discriminate).
    split.
    + intros [= H1 H2]. f_equal; [exact H1 | now apply IH].
    + intros [= H1 H2]. f_equal; [now rewrite H1 | now apply IH].
  - induction a as [|x a IH]; cbn; constructor; [reflexivity | exact IH].
  - induction a as [|x a IH]; cbn; [reflexivity | now rewrite IH].
  - induction a as [|x a IH]; cbn; [reflexivity | now rewrite IH].
Qed.

Lemma clearL4_equal_iff {Endpoint Backend Svc : Type}
    (a b : list (@L4Service Endpoint Backend Svc)) :
  clearL4 a = clearL4 b <->
  map (fun s => (l4Port s, l4Backend s)) a
  = map (fun s => (l4Port s, l4Backend s)) b.
Proof.
  revert b. induction a as [|x a IH]; intros [|y b]; cbn;
    try (split; [reflexivity | reflexivity]);
    try (split; discriminate).
  split.
  - intros [= H1 H2 H3]. f_equal; [now rewrite H1, H2 | now apply IH].
  - intros [= H1 H2 H3]. f_equal; [now rewrite H1, H2 | now apply IH].
Qed.

(** X27: [clearL4serviceEndpoints] keeps of every TCP and UDP stream
    service its port and its backend and nothing else: two
    configurations come out equal exactly when their stream services
    agree, in order, in port and backend, whatever their endpoints and
    services are. *)
Theorem clearL4serviceEndpoints_ignores_endpoints
    {Endpoint Backend Svc : Type}
    (tcp udp tcp' udp' : list (@L4Service Endpoint Backend Svc)) :
  let key := map (fun s => (l4Port s, l4Backend s)) in
  (clearL4serviceEndpoints tcp udp = clearL4serviceEndpoints tcp' udp' <->
   key tcp = key tcp' /\ key udp = key udp') /\
  Forall (fun s => l4Endpoints s = [] /\ l4Service s = None)
         ((clearL4serviceEndpoints tcp udp).1
          ++ (clearL4serviceEndpoints tcp udp).2).
Proof.
  cbv zeta. unfold clearL4serviceEndpoints. cbn [fst snd]. split.
  - split.
    + intros [= H1 H2]. split; now apply clearL4_equal_iff.
    + intros [H1 H2]. f_equal; now apply clearL4_equal_iff.
  - apply Forall_app. split.
    + induction tcp as [|x l IH]; cbn; constructor; [now split | exact IH].
    + induction udp as [|x l IH]; cbn; constructor; [now split | exact IH].
Qed.
